(** * Setting boxes of [DB/Interpreters/SettingsCommon.h]

    A shallow embedding of the setting structs ([SettingUInt64],
    [SettingSeconds], [SettingMilliseconds], [SettingFloat],
    [SettingLoadBalancing], [SettingTotalsMode], [SettingOverflowMode]) and
    the properties of their [set] / [write] / [toString] members.

    C++ member functions mutate [*this] and the buffer they are handed, and
    they leave by [throw] with every earlier mutation still in place.  They
    are embedded in a state monad whose state survives an exception. *)

From Stdlib Require Import ZArith List String Ascii Bool Lia.
From Stdlib Require Import Strings.Byte Numbers.DecimalString.
From Stdlib Require Import Floats.SpecFloat.
Import ListNotations.

Local Open Scope string_scope.
Local Open Scope list_scope.
Local Open Scope Z_scope.

(** ** Machine integers *)

(** [UInt64] and [Int64] are carried by [Z]; every conversion the C++ code
    performs implicitly is written out. *)
Definition UInt64 := Z.
Definition Int64 := Z.

Definition two64 : Z := 2 ^ 64.
Definition two63 : Z := 2 ^ 63.

Definition is_UInt64 (x : Z) : Prop := 0 <= x < two64.
Definition is_Int64 (x : Z) : Prop := - two63 <= x < two63.

(** Conversion to [UInt64]: reduction modulo 2^64. *)
Definition to_UInt64 (x : Z) : UInt64 := x mod two64.

(** Conversion to [Int64] ([long], [Poco::Timespan::TimeDiff]): the
    two's-complement reading of the low 64 bits. *)
Definition to_Int64 (x : Z) : Int64 := (x + two63) mod two64 - two63.

(** ** Exceptions *)

(** The members of [ErrorCodes] named in the header, followed by the two
    codes of the stream and text helpers. *)
Inductive ErrorCode : Set :=
| TYPE_MISMATCH
| UNKNOWN_LOAD_BALANCING
| UNKNOWN_OVERFLOW_MODE
| UNKNOWN_TOTALS_MODE
| ARGUMENT_OUT_OF_BOUND
| ILLEGAL_OVERFLOW_MODE
| CANNOT_PARSE_TEXT
| ATTEMPT_TO_READ_AFTER_EOF.

Record Exception : Set := mkException { message : string; code : ErrorCode }.

(** The error kinds of the specification's taxonomy and the kind each code
    stands for. *)
Inductive ErrorKind : Set :=
| ParseError | TypeMismatch | UnknownEnumValue | IllegalValue | OutOfRange
| IOFailure.

Definition kind_of (c : ErrorCode) : ErrorKind :=
  match c with
  | TYPE_MISMATCH => TypeMismatch
  | UNKNOWN_LOAD_BALANCING | UNKNOWN_OVERFLOW_MODE | UNKNOWN_TOTALS_MODE =>
      UnknownEnumValue
  | ARGUMENT_OUT_OF_BOUND => OutOfRange
  | ILLEGAL_OVERFLOW_MODE => IllegalValue
  | CANNOT_PARSE_TEXT => ParseError
  | ATTEMPT_TO_READ_AFTER_EOF => IOFailure
  end.

(** ** Statements: state that survives a throw *)

Inductive Outcome (A : Type) : Type :=
| Returned (a : A)
| Thrown (e : Exception).
Arguments Returned {A} a.
Arguments Thrown {A} e.

Definition Stmt (S A : Type) : Type := S -> Outcome A * S.

Definition ret {S A} (a : A) : Stmt S A := fun s => (Returned a, s).

Definition throw {S A} (e : Exception) : Stmt S A := fun s => (Thrown e, s).

Definition bind {S A B} (m : Stmt S A) (k : A -> Stmt S B) : Stmt S B :=
  fun s =>
    match m s with
    | (Returned a, s') => k a s'
    | (Thrown e, s') => (Thrown e, s')
    end.

Declare Scope stmt_scope.
Delimit Scope stmt_scope with stmt.
Notation "x <- m ;; k" := (bind m (fun x => k))
  (at level 61, m at next level, right associativity) : stmt_scope.
Notation "m ;; k" := (bind m (fun _ => k))
  (at level 61, right associativity) : stmt_scope.
Local Open Scope stmt_scope.

(** A pure call that may throw ([static] helpers, accessors of a variant). *)
Definition call {S A} (r : Outcome A) : Stmt S A := fun s => (r, s).

(** ** Buffers *)

(** A [ReadBuffer] is the bytes not yet consumed, a [WriteBuffer] the bytes
    written so far. *)
Definition ReadBuffer := list byte.
Definition WriteBuffer := list byte.

(** What a member function of a struct [B] can touch: the object itself and
    the buffer passed by reference. *)
Record Frame (B : Type) : Type := mkFrame {
  this : B;
  istr : ReadBuffer;
  ostr : WriteBuffer
}.
Arguments mkFrame {B} this istr ostr.
Arguments this {B} f.
Arguments istr {B} f.
Arguments ostr {B} f.

Definition Method (B A : Type) : Type := Stmt (Frame B) A.

(** ** Variable-length integers *)

Definition byte_of_Z (z : Z) : byte :=
  match Byte.of_N (Z.to_N z) with
  | Some b => b
  | None => x00
  end.

Definition Z_of_byte (b : byte) : Z := Z.of_N (Byte.to_N b).

(** Modelled from the spec: [writeVarUInt] of DB/IO/VarInt.h, which the
    header calls but does not define.  "Variable-length encoding, 7 bits per byte,
    continuation bit high, no zig-zag": the low seven bits go first, and a
    byte carries the high bit when more bytes follow.  Ten bytes hold sixty
    four bits, so the recursion is given ten steps. *)
Fixpoint encodeVarUInt (steps : nat) (x : UInt64) : list byte :=
  match steps with
  | O => []
  | S n =>
      if x >? 0x7F
      then byte_of_Z (Z.lor (Z.land x 0x7F) 0x80) :: encodeVarUInt n (Z.shiftr x 7)
      else [byte_of_Z (Z.land x 0x7F)]
  end.

Definition varUInt (x : UInt64) : list byte := encodeVarUInt 10 x.

(** Modelled from the spec: [readVarUInt] of DB/IO/VarInt.h.  Bytes are
    consumed while the continuation bit is set; bits shifted past the
    sixty-fourth are lost, as in a 64-bit accumulator.  [None] is a read
    past the end of the buffer. *)
Fixpoint decodeVarUInt (shift : Z) (acc : UInt64) (bs : list byte)
  : option (UInt64 * list byte) :=
  match bs with
  | [] => None
  | b :: rest =>
      let v := Z_of_byte b in
      let acc' := to_UInt64 (Z.lor acc (Z.shiftl (Z.land v 0x7F) shift)) in
      if Z.testbit v 7 then decodeVarUInt (shift + 7) acc' rest
      else Some (acc', rest)
  end.

Definition read_after_eof : Exception :=
  mkException "Attempt to read after eof" ATTEMPT_TO_READ_AFTER_EOF.

Definition readVarUInt {B} : Method B UInt64 :=
  fun f =>
    match decodeVarUInt 0 0 (istr f) with
    | Some (x, rest) => (Returned x, mkFrame (this f) rest (ostr f))
    | None => (Thrown read_after_eof, mkFrame (this f) [] (ostr f))
    end.

Definition writeBytes {B} (bs : list byte) : Method B unit :=
  fun f => (Returned tt, mkFrame (this f) (istr f) (ostr f ++ bs)).

Definition writeVarUInt {B} (x : UInt64) : Method B unit :=
  writeBytes (varUInt x).

(** Modelled from the spec: [writeBinary (const String &)] and
    [readBinary (String &)] of DB/IO: a string travels as the varint of its
    length followed by its bytes. *)
Definition stringBinary (s : string) : list byte :=
  varUInt (Z.of_nat (String.length s)) ++ list_byte_of_string s.

Definition writeBinary {B} (s : string) : Method B unit :=
  writeBytes (stringBinary s).

Definition readBinary {B} : Method B string :=
  n <- readVarUInt ;;
  fun f =>
    if Z.of_nat (List.length (istr f)) <? n
    then (Thrown read_after_eof, mkFrame (this f) [] (ostr f))
    else (Returned (string_of_list_byte (firstn (Z.to_nat n) (istr f))),
          mkFrame (this f) (skipn (Z.to_nat n) (istr f)) (ostr f)).

(** ** Durations *)

(** Modelled from the spec: [Poco::Timespan], the "single duration
    representation with sub-second precision".  A time span is a signed
    64-bit count of microseconds ([TimeDiff]); the accessors divide with
    C++ integer division, which truncates towards zero. *)
Definition Timespan := Int64.

Definition MILLISECONDS : Z := 1000.
Definition SECONDS : Z := 1000000.

(** [Timespan(TimeDiff microseconds)] *)
Definition Timespan_of_microseconds (microseconds : Z) : Timespan :=
  to_Int64 microseconds.

(** [Timespan(long seconds, long microseconds)] *)
Definition Timespan_of_seconds (seconds microseconds : Z) : Timespan :=
  to_Int64 (to_Int64 seconds * SECONDS + to_Int64 microseconds).

Definition Timespan_totalSeconds (t : Timespan) : Int64 := Z.quot t SECONDS.
Definition Timespan_totalMilliseconds (t : Timespan) : Int64 :=
  Z.quot t MILLISECONDS.

(** ** Floating point *)

(** [float] is IEEE-754 binary32 and [Float64] binary64, both carried by the
    standard library's [spec_float]. *)
Definition float := spec_float.
Definition Float64 := spec_float.

(** Integer to [float] conversion: round to nearest, ties to even. *)
Definition float_of_integer (n : Z) : float := binary_normalize 24 128 n 0 false.

(** [==] on [float]: IEEE 754 comparison, under which a NaN equals nothing
    and the two zeros equal each other. *)
Definition float_equal (a b : float) : bool := SFeqb a b.

(** [M / 2^k] rounded to the nearest integer, a tie going to the even one. *)
Definition round_half_even (M k : Z) : Z :=
  let q := M / 2 ^ k in
  match 2 * (M mod 2 ^ k) ?= 2 ^ k with
  | Lt => q
  | Eq => if Z.even q then q else q + 1
  | Gt => q + 1
  end.

(** The binary32 number of mantissa [M] and exponent [E], infinity when the
    exponent is past the largest one. *)
Definition finite_or_infinity (s : bool) (M E : Z) : float :=
  if E <=? 104
  then match M with Zpos m => S754_finite s m E | _ => S754_nan end
  else S754_infinity s.

(** What IEEE 754 asks of a conversion to binary32 under the default
    rounding, in arithmetic: the number [(-1)^s * m * 2^e] keeps its 24
    leading binary digits, or those above [2^-149] when it is that small;
    what is cut off rounds to nearest, ties to even; a mantissa that
    rounding carries to [2^24] is renormalised; an exponent past 104 gives
    infinity. *)
Definition nearest_binary32 (s : bool) (m : positive) (e : Z) : float :=
  let e0 := Z.max (Z.log2 (Zpos m) + 1 + e - 24) (-149) in
  if e0 <=? e then finite_or_infinity s (Zpos m * 2 ^ (e - e0)) e0
  else
    let q := round_half_even (Zpos m) (e0 - e) in
    if q =? 0 then S754_zero s
    else if q =? 2 ^ 24 then finite_or_infinity s (2 ^ 23) (e0 + 1)
    else finite_or_infinity s q e0.

(** Two numbers [m * 2^e] and [m' * 2^e'] are the same number. *)
Definition same_dyadic (m : positive) (e : Z) (m' : positive) (e' : Z) : Prop :=
  Zpos m * 2 ^ (e - Z.min e e') = Zpos m' * 2 ^ (e' - Z.min e e').

(** [Float64] to [float] conversion. *)
Definition float_of_Float64 (d : Float64) : float :=
  match d with
  | S754_finite s m e => binary_normalize 24 128 (cond_Zopp s (Zpos m)) e s
  | _ => d
  end.

(** ** The tagged variant *)

(** Modelled from the spec: [Field] of DB/Core/Field.h, "an opaque value
    carrier with typed accessors that fail if the stored type does not
    match". *)
#[warnings="-register-all"]
Inductive Field : Type :=
| Field_Null
| Field_UInt64 (x : UInt64)
| Field_Int64 (x : Int64)
| Field_Float64 (x : Float64)
| Field_String (x : string)
| Field_Array (x : list Field).

Inductive Types : Set :=
| Types_Null | Types_UInt64 | Types_Int64 | Types_Float64 | Types_String
| Types_Array.

Definition Types_eqb (a b : Types) : bool :=
  match a, b with
  | Types_Null, Types_Null | Types_UInt64, Types_UInt64
  | Types_Int64, Types_Int64 | Types_Float64, Types_Float64
  | Types_String, Types_String | Types_Array, Types_Array => true
  | _, _ => false
  end.

Definition getType (x : Field) : Types :=
  match x with
  | Field_Null => Types_Null
  | Field_UInt64 _ => Types_UInt64
  | Field_Int64 _ => Types_Int64
  | Field_Float64 _ => Types_Float64
  | Field_String _ => Types_String
  | Field_Array _ => Types_Array
  end.

Definition getTypeName (x : Field) : string :=
  match x with
  | Field_Null => "Null"
  | Field_UInt64 _ => "UInt64"
  | Field_Int64 _ => "Int64"
  | Field_Float64 _ => "Float64"
  | Field_String _ => "String"
  | Field_Array _ => "Array"
  end.

Definition bad_get (x : Field) (requested : string) : Exception :=
  mkException
    ("Bad get: has " ++ getTypeName x ++ ", requested " ++ requested)%string
    TYPE_MISMATCH.

(** Modelled from the spec: [safeGet<T>], the typed accessor of the variant;
    a stored type other than [T] is a TypeMismatch. *)
Definition safeGet_UInt64 (x : Field) : Outcome UInt64 :=
  match x with Field_UInt64 v => Returned v | _ => Thrown (bad_get x "UInt64") end.

Definition safeGet_Int64 (x : Field) : Outcome Int64 :=
  match x with Field_Int64 v => Returned v | _ => Thrown (bad_get x "Int64") end.

Definition safeGet_Float64 (x : Field) : Outcome Float64 :=
  match x with Field_Float64 v => Returned v | _ => Thrown (bad_get x "Float64") end.

Definition safeGet_String (x : Field) : Outcome string :=
  match x with Field_String v => Returned v | _ => Thrown (bad_get x "String") end.

(** ** Text conversions of numbers *)

(** [parse<UInt64>], [parse<float>] and [toString (float)] live in DB/IO; the
    header calls them but does not define them, and the development is
    parametric in them.
    [None] stands for text that is not a literal of the type. *)
Class TextFormat : Type := {
  parse_UInt64_text : string -> option UInt64;
  parse_float_text : string -> option float;
  toString_float : float -> string
}.

Definition cannot_parse (what s : string) : Exception :=
  mkException ("Cannot parse " ++ what ++ " from '" ++ s ++ "'")%string
    CANNOT_PARSE_TEXT.

Definition parse_UInt64 `{TextFormat} (s : string) : Outcome UInt64 :=
  match parse_UInt64_text s with
  | Some x => Returned x
  | None => Thrown (cannot_parse "UInt64" s)
  end.

Definition parse_float `{TextFormat} (s : string) : Outcome float :=
  match parse_float_text s with
  | Some x => Returned x
  | None => Thrown (cannot_parse "float" s)
  end.

(** [toString] of an [int]. *)
Definition toString_int (n : Z) : string := NilZero.string_of_int (Z.to_int n).

(** ** The shape shared by every setting struct *)

(** Each struct of the header is [{ T value; bool changed = false; }]. *)
Record Setting (T : Type) : Type := mkSetting { value : T; changed : bool }.
Arguments mkSetting {T} value changed.
Arguments value {T} s.
Arguments changed {T} s.

(** [value = x;] *)
Definition assign_value {T} (x : T) : Method (Setting T) unit :=
  fun f =>
    (Returned tt, mkFrame (mkSetting x (changed (this f))) (istr f) (ostr f)).

(** [changed = c;] *)
Definition assign_changed {T} (c : bool) : Method (Setting T) unit :=
  fun f =>
    (Returned tt, mkFrame (mkSetting (value (this f)) c) (istr f) (ostr f)).

(** Reading the member [value]. *)
Definition read_value {T} : Method (Setting T) T :=
  fun f => (Returned (value (this f)), f).

(** The member initialisers: [value (x)] and [changed = false]. *)
Definition construct {T} (x : T) : Setting T := mkSetting x false.

(** ** [struct SettingUInt64] *)
Module SettingUInt64.
Section Members.
Context `{TextFormat}.

Definition t := Setting UInt64.

(** [SettingUInt64(UInt64 x = 0) : value(x) {}] *)
Definition ctor (x : UInt64) : t := construct x.
Definition default : t := ctor 0.

(** [operator UInt64() const] *)
Definition get (s : t) : UInt64 := value s.

Definition set (x : UInt64) : Method t unit :=
  assign_value x ;;
  assign_changed true.

(** [operator= (UInt64 x)] *)
Definition assign (x : UInt64) : Method t unit := set x.

Definition set_Field (x : Field) : Method t unit :=
  v <- call (safeGet_UInt64 x) ;;
  set v.

Definition set_String (x : string) : Method t unit :=
  v <- call (parse_UInt64 x) ;;
  set v.

Definition set_ReadBuffer : Method t unit :=
  x <- readVarUInt ;;
  set x.

Definition write : Method t unit :=
  v <- read_value ;;
  writeVarUInt v.
End Members.
End SettingUInt64.

(** ** [struct SettingSeconds] *)
Module SettingSeconds.
Section Members.
Context `{TextFormat}.

Definition t := Setting Timespan.

(** [SettingSeconds(UInt64 seconds = 0) : value(seconds, 0) {}] *)
Definition ctor (seconds : UInt64) : t :=
  construct (Timespan_of_seconds seconds 0).
Definition default : t := ctor 0.

(** [operator Poco::Timespan() const] *)
Definition get (s : t) : Timespan := value s.

Definition totalSeconds (s : t) : Int64 := Timespan_totalSeconds (value s).

Definition set (x : Timespan) : Method t unit :=
  assign_value x ;;
  assign_changed true.

(** [operator= (Poco::Timespan x)] *)
Definition assign (x : Timespan) : Method t unit := set x.

Definition set_UInt64 (x : UInt64) : Method t unit :=
  set (Timespan_of_seconds x 0).

Definition set_Field (x : Field) : Method t unit :=
  v <- call (safeGet_UInt64 x) ;;
  set_UInt64 v.

Definition set_String (x : string) : Method t unit :=
  v <- call (parse_UInt64 x) ;;
  set_UInt64 v.

Definition set_ReadBuffer : Method t unit :=
  x <- readVarUInt ;;
  set_UInt64 x.

Definition write : Method t unit :=
  v <- read_value ;;
  writeVarUInt (to_UInt64 (Timespan_totalSeconds v)).
End Members.
End SettingSeconds.

(** ** [struct SettingMilliseconds] *)
Module SettingMilliseconds.
Section Members.
Context `{TextFormat}.

Definition t := Setting Timespan.

(** [SettingMilliseconds(UInt64 milliseconds = 0) : value(milliseconds * 1000) {}]:
    the product is taken in [UInt64]. *)
Definition ctor (milliseconds : UInt64) : t :=
  construct (Timespan_of_microseconds (to_UInt64 (milliseconds * 1000))).
Definition default : t := ctor 0.

(** [operator Poco::Timespan() const] *)
Definition get (s : t) : Timespan := value s.

Definition totalMilliseconds (s : t) : Int64 :=
  Timespan_totalMilliseconds (value s).

Definition set (x : Timespan) : Method t unit :=
  assign_value x ;;
  assign_changed true.

(** [operator= (Poco::Timespan x)] *)
Definition assign (x : Timespan) : Method t unit := set x.

Definition set_UInt64 (x : UInt64) : Method t unit :=
  set (Timespan_of_microseconds (to_UInt64 (x * 1000))).

Definition set_Field (x : Field) : Method t unit :=
  v <- call (safeGet_UInt64 x) ;;
  set_UInt64 v.

Definition set_String (x : string) : Method t unit :=
  v <- call (parse_UInt64 x) ;;
  set_UInt64 v.

Definition set_ReadBuffer : Method t unit :=
  x <- readVarUInt ;;
  set_UInt64 x.

Definition write : Method t unit :=
  v <- read_value ;;
  writeVarUInt (to_UInt64 (Timespan_totalMilliseconds v)).
End Members.
End SettingMilliseconds.

(** ** [struct SettingFloat] *)
Module SettingFloat.
Section Members.
Context `{TextFormat}.

Definition t := Setting float.

(** [SettingFloat(float x = 0) : value(x) {}] *)
Definition ctor (x : float) : t := construct x.
Definition default : t := ctor (S754_zero false).

(** [operator float() const] *)
Definition get (s : t) : float := value s.

Definition set (x : float) : Method t unit :=
  assign_value x ;;
  assign_changed true.

(** [operator= (float x)] *)
Definition assign (x : float) : Method t unit := set x.

(** The three accepted branches hand an integer or a double to
    [set (float)], which converts its argument. *)
Definition set_Field (x : Field) : Method t unit :=
  if Types_eqb (getType x) Types_UInt64 then
    v <- call (safeGet_UInt64 x) ;;
    set (float_of_integer v)
  else if Types_eqb (getType x) Types_Int64 then
    v <- call (safeGet_Int64 x) ;;
    set (float_of_integer v)
  else if Types_eqb (getType x) Types_Float64 then
    v <- call (safeGet_Float64 x) ;;
    set (float_of_Float64 v)
  else
    throw (mkException
             ("Bad type of setting. Expected UInt64, Int64 or Float64, got "
              ++ getTypeName x)%string
             TYPE_MISMATCH).

Definition set_String (x : string) : Method t unit :=
  v <- call (parse_float x) ;;
  set v.

Definition set_ReadBuffer : Method t unit :=
  x <- readBinary ;;
  set_String x.

Definition write : Method t unit :=
  v <- read_value ;;
  writeBinary (toString_float v).
End Members.
End SettingFloat.

(** ** Enumerations *)

(** An [enum class] is carried by the [int] beneath it, so that a stored
    ordinal outside the named values can be spoken of. *)
Definition LoadBalancing := Z.
Definition RANDOM : LoadBalancing := 0.
Definition NEAREST_HOSTNAME : LoadBalancing := 1.

Definition TotalsMode := Z.
Definition BEFORE_HAVING : TotalsMode := 0.
Definition AFTER_HAVING_INCLUSIVE : TotalsMode := 1.
Definition AFTER_HAVING_EXCLUSIVE : TotalsMode := 2.
Definition AFTER_HAVING_AUTO : TotalsMode := 3.

Definition OverflowMode := Z.
Definition THROW : OverflowMode := 0.
Definition BREAK : OverflowMode := 1.
Definition ANY : OverflowMode := 2.

(** ** [struct SettingLoadBalancing] *)
Module SettingLoadBalancing.
Definition t := Setting LoadBalancing.

(** [SettingLoadBalancing(LoadBalancing x) : value(x) {}] *)
Definition ctor (x : LoadBalancing) : t := construct x.

(** [operator LoadBalancing() const] *)
Definition get (s : t) : LoadBalancing := value s.

Definition getLoadBalancing (s : string) : Outcome LoadBalancing :=
  if (s =? "random")%string then Returned RANDOM
  else if (s =? "nearest_hostname")%string then Returned NEAREST_HOSTNAME
  else Thrown (mkException
                 ("Unknown load balancing mode: '" ++ s
                  ++ "', must be one of 'random', 'nearest_hostname'")%string
                 UNKNOWN_LOAD_BALANCING).

Definition strings : list string := ["random"; "nearest_hostname"]%string.

Definition toString : Method t string :=
  v <- read_value ;;
  if (v <? RANDOM) || (v >? NEAREST_HOSTNAME)
  then throw (mkException "Unknown load balancing mode" UNKNOWN_OVERFLOW_MODE)
  else ret (nth (Z.to_nat v) strings ""%string).

Definition set (x : LoadBalancing) : Method t unit :=
  assign_value x ;;
  assign_changed true.

(** [operator= (LoadBalancing x)] *)
Definition assign (x : LoadBalancing) : Method t unit := set x.

Definition set_String (x : string) : Method t unit :=
  v <- call (getLoadBalancing x) ;;
  set v.

Definition set_Field (x : Field) : Method t unit :=
  s <- call (safeGet_String x) ;;
  set_String s.

Definition set_ReadBuffer : Method t unit :=
  x <- readBinary ;;
  set_String x.

Definition write : Method t unit :=
  s <- toString ;;
  writeBinary s.
End SettingLoadBalancing.

(** ** [struct SettingTotalsMode] *)
Module SettingTotalsMode.
Definition t := Setting TotalsMode.

(** [SettingTotalsMode(TotalsMode x) : value(x) {}] *)
Definition ctor (x : TotalsMode) : t := construct x.

(** [operator TotalsMode() const] *)
Definition get (s : t) : TotalsMode := value s.

Definition getTotalsMode (s : string) : Outcome TotalsMode :=
  if (s =? "before_having")%string then Returned BEFORE_HAVING
  else if (s =? "after_having_exclusive")%string then Returned AFTER_HAVING_EXCLUSIVE
  else if (s =? "after_having_inclusive")%string then Returned AFTER_HAVING_INCLUSIVE
  else if (s =? "after_having_auto")%string then Returned AFTER_HAVING_AUTO
  else Thrown (mkException
                 ("Unknown totals mode: '" ++ s
                  ++ "', must be one of 'before_having', 'after_having_exclusive', 'after_having_inclusive', 'after_having_auto'")%string
                 UNKNOWN_TOTALS_MODE).

Definition toString : Method t string :=
  v <- read_value ;;
  if v =? BEFORE_HAVING then ret "before_having"%string
  else if v =? AFTER_HAVING_EXCLUSIVE then ret "after_having_exclusive"%string
  else if v =? AFTER_HAVING_INCLUSIVE then ret "after_having_inclusive"%string
  else if v =? AFTER_HAVING_AUTO then ret "after_having_auto"%string
  else throw (mkException
                ("Unknown TotalsMode enum value: " ++ toString_int v)%string
                ARGUMENT_OUT_OF_BOUND).

Definition set (x : TotalsMode) : Method t unit :=
  assign_value x ;;
  assign_changed true.

(** [operator= (TotalsMode x)] *)
Definition assign (x : TotalsMode) : Method t unit := set x.

Definition set_String (x : string) : Method t unit :=
  v <- call (getTotalsMode x) ;;
  set v.

Definition set_Field (x : Field) : Method t unit :=
  s <- call (safeGet_String x) ;;
  set_String s.

Definition set_ReadBuffer : Method t unit :=
  x <- readBinary ;;
  set_String x.

Definition write : Method t unit :=
  s <- toString ;;
  writeBinary s.
End SettingTotalsMode.

(** ** [template <bool enable_mode_any> struct SettingOverflowMode] *)
Module SettingOverflowMode.
Section Template.
Variable enable_mode_any : bool.

Definition t := Setting OverflowMode.

(** [SettingOverflowMode(OverflowMode x = OverflowMode::THROW) : value(x) {}] *)
Definition ctor (x : OverflowMode) : t := construct x.
Definition default : t := ctor THROW.

(** [operator OverflowMode() const] *)
Definition get (s : t) : OverflowMode := value s.

Definition getOverflowModeForGroupBy (s : string) : Outcome OverflowMode :=
  if (s =? "throw")%string then Returned THROW
  else if (s =? "break")%string then Returned BREAK
  else if (s =? "any")%string then Returned ANY
  else Thrown (mkException
                 ("Unknown overflow mode: '" ++ s
                  ++ "', must be one of 'throw', 'break', 'any'")%string
                 UNKNOWN_OVERFLOW_MODE).

Definition getOverflowMode (s : string) : Outcome OverflowMode :=
  match getOverflowModeForGroupBy s with
  | Returned mode =>
      if (mode =? ANY) && negb enable_mode_any
      then Thrown (mkException
                     "Illegal overflow mode: 'any' is only for 'group_by_overflow_mode'"
                     ILLEGAL_OVERFLOW_MODE)
      else Returned mode
  | Thrown e => Thrown e
  end.

Definition strings : list string := ["throw"; "break"; "any"]%string.

Definition toString : Method t string :=
  v <- read_value ;;
  if (v <? THROW) || (v >? ANY)
  then throw (mkException "Unknown overflow mode" UNKNOWN_OVERFLOW_MODE)
  else ret (nth (Z.to_nat v) strings ""%string).

Definition set (x : OverflowMode) : Method t unit :=
  assign_value x ;;
  assign_changed true.

(** [operator= (OverflowMode x)] *)
Definition assign (x : OverflowMode) : Method t unit := set x.

Definition set_String (x : string) : Method t unit :=
  v <- call (getOverflowMode x) ;;
  set v.

Definition set_Field (x : Field) : Method t unit :=
  s <- call (safeGet_String x) ;;
  set_String s.

Definition set_ReadBuffer : Method t unit :=
  x <- readBinary ;;
  set_String x.

Definition write : Method t unit :=
  s <- toString ;;
  writeBinary s.
End Template.
End SettingOverflowMode.

(** ** The family of setting boxes *)

(** The three enumerated structs; the overflow-mode struct carries its
    template argument. *)
Inductive EnumKind : Set :=
| LoadBalancingBox
| TotalsModeBox
| OverflowModeBox (enable_mode_any : bool).

Inductive Kind : Set :=
| UnsignedIntegerBox
| SecondsBox
| MillisecondsBox
| FloatBox
| Enumerated (e : EnumKind).

(** The type of the member [value]. *)
Definition ValueOf (k : Kind) : Type :=
  match k with
  | UnsignedIntegerBox => UInt64
  | SecondsBox | MillisecondsBox => Timespan
  | FloatBox => float
  | Enumerated LoadBalancingBox => LoadBalancing
  | Enumerated TotalsModeBox => TotalsMode
  | Enumerated (OverflowModeBox _) => OverflowMode
  end.

Definition Box (k : Kind) : Type := Setting (ValueOf k).

(** What the constructor takes: a count in the native unit for the duration
    structs, the value itself elsewhere. *)
Definition CtorArg (k : Kind) : Type :=
  match k with
  | SecondsBox | MillisecondsBox => UInt64
  | _ => ValueOf k
  end.

Definition ctor_of (k : Kind) : CtorArg k -> Box k :=
  match k with
  | UnsignedIntegerBox => SettingUInt64.ctor
  | SecondsBox => SettingSeconds.ctor
  | MillisecondsBox => SettingMilliseconds.ctor
  | FloatBox => SettingFloat.ctor
  | Enumerated LoadBalancingBox => SettingLoadBalancing.ctor
  | Enumerated TotalsModeBox => SettingTotalsMode.ctor
  | Enumerated (OverflowModeBox _) => SettingOverflowMode.ctor
  end.

(** The arguments of the native [set] overloads: the duration structs have
    two, [set (Poco::Timespan)] and [set (UInt64)]. *)
Definition NativeArg (k : Kind) : Type :=
  match k with
  | SecondsBox | MillisecondsBox => (Timespan + UInt64)%type
  | _ => ValueOf k
  end.

(** A value of the member type as an argument of the native [set]. *)
Definition native_of_value (k : Kind) : ValueOf k -> NativeArg k :=
  match k with
  | SecondsBox | MillisecondsBox => inl
  | UnsignedIntegerBox => fun x => x
  | FloatBox => fun x => x
  | Enumerated LoadBalancingBox => fun x => x
  | Enumerated TotalsModeBox => fun x => x
  | Enumerated (OverflowModeBox _) => fun x => x
  end.

(** The four representations a [set] call can be given. *)
Inductive SetCall (k : Kind) : Type :=
| ByNative (x : NativeArg k)
| ByField (x : Field)
| ByString (x : string)
| ByReadBuffer.
Arguments ByNative {k} x.
Arguments ByField {k} x.
Arguments ByString {k} x.
Arguments ByReadBuffer {k}.

(** Two values of the member type are equal: [==] of C++, which on a
    [float] is the IEEE comparison. *)
Definition equal_values (k : Kind) : ValueOf k -> ValueOf k -> Prop :=
  match k with
  | FloatBox => fun a b => float_equal a b = true
  | UnsignedIntegerBox => fun a b => a = b
  | SecondsBox => fun a b => a = b
  | MillisecondsBox => fun a b => a = b
  | Enumerated LoadBalancingBox => fun a b => a = b
  | Enumerated TotalsModeBox => fun a b => a = b
  | Enumerated (OverflowModeBox _) => fun a b => a = b
  end.

Section Dispatch.
Context `{TextFormat}.

Definition set_of (k : Kind) : SetCall k -> Method (Box k) unit :=
  match k with
  | UnsignedIntegerBox => fun c =>
      match c with
      | ByNative x => SettingUInt64.set x
      | ByField x => SettingUInt64.set_Field x
      | ByString x => SettingUInt64.set_String x
      | ByReadBuffer => SettingUInt64.set_ReadBuffer
      end
  | SecondsBox => fun c =>
      match c with
      | ByNative (inl x) => SettingSeconds.set x
      | ByNative (inr x) => SettingSeconds.set_UInt64 x
      | ByField x => SettingSeconds.set_Field x
      | ByString x => SettingSeconds.set_String x
      | ByReadBuffer => SettingSeconds.set_ReadBuffer
      end
  | MillisecondsBox => fun c =>
      match c with
      | ByNative (inl x) => SettingMilliseconds.set x
      | ByNative (inr x) => SettingMilliseconds.set_UInt64 x
      | ByField x => SettingMilliseconds.set_Field x
      | ByString x => SettingMilliseconds.set_String x
      | ByReadBuffer => SettingMilliseconds.set_ReadBuffer
      end
  | FloatBox => fun c =>
      match c with
      | ByNative x => SettingFloat.set x
      | ByField x => SettingFloat.set_Field x
      | ByString x => SettingFloat.set_String x
      | ByReadBuffer => SettingFloat.set_ReadBuffer
      end
  | Enumerated LoadBalancingBox => fun c =>
      match c with
      | ByNative x => SettingLoadBalancing.set x
      | ByField x => SettingLoadBalancing.set_Field x
      | ByString x => SettingLoadBalancing.set_String x
      | ByReadBuffer => SettingLoadBalancing.set_ReadBuffer
      end
  | Enumerated TotalsModeBox => fun c =>
      match c with
      | ByNative x => SettingTotalsMode.set x
      | ByField x => SettingTotalsMode.set_Field x
      | ByString x => SettingTotalsMode.set_String x
      | ByReadBuffer => SettingTotalsMode.set_ReadBuffer
      end
  | Enumerated (OverflowModeBox enable_mode_any) => fun c =>
      match c with
      | ByNative x => SettingOverflowMode.set x
      | ByField x => SettingOverflowMode.set_Field enable_mode_any x
      | ByString x => SettingOverflowMode.set_String enable_mode_any x
      | ByReadBuffer => SettingOverflowMode.set_ReadBuffer enable_mode_any
      end
  end.

(** [operator=] *)
Definition assign_of (k : Kind) : ValueOf k -> Method (Box k) unit :=
  match k with
  | UnsignedIntegerBox => SettingUInt64.assign
  | SecondsBox => SettingSeconds.assign
  | MillisecondsBox => SettingMilliseconds.assign
  | FloatBox => SettingFloat.assign
  | Enumerated LoadBalancingBox => SettingLoadBalancing.assign
  | Enumerated TotalsModeBox => SettingTotalsMode.assign
  | Enumerated (OverflowModeBox _) => SettingOverflowMode.assign
  end.

Definition write_of (k : Kind) : Method (Box k) unit :=
  match k with
  | UnsignedIntegerBox => SettingUInt64.write
  | SecondsBox => SettingSeconds.write
  | MillisecondsBox => SettingMilliseconds.write
  | FloatBox => SettingFloat.write
  | Enumerated LoadBalancingBox => SettingLoadBalancing.write
  | Enumerated TotalsModeBox => SettingTotalsMode.write
  | Enumerated (OverflowModeBox _) => SettingOverflowMode.write
  end.

Definition toString_of (e : EnumKind) : Method (Box (Enumerated e)) string :=
  match e with
  | LoadBalancingBox => SettingLoadBalancing.toString
  | TotalsModeBox => SettingTotalsMode.toString
  | OverflowModeBox _ => SettingOverflowMode.toString
  end.

(** The members of a box that run as statements. *)
Inductive Op (k : Kind) : Type :=
| OpSet (c : SetCall k)
| OpAssign (x : ValueOf k)
| OpWrite.

Definition perform (k : Kind) (o : Op k) : Method (Box k) unit :=
  match o with
  | OpSet _ c => set_of k c
  | OpAssign _ x => assign_of k x
  | OpWrite _ => write_of k
  end.

(** [write] into an empty buffer, then [set (ReadBuffer &)] of another box
    of the same kind on the bytes written. *)
Definition write_then_set (k : Kind) (src dst : Box k)
  : Outcome unit * Frame (Box k) :=
  match write_of k (mkFrame src [] []) with
  | (Returned _, f) => set_of k ByReadBuffer (mkFrame dst (ostr f) [])
  | (Thrown e, _) => (Thrown e, mkFrame dst [] [])
  end.

(** The round trip succeeds, consumes what was written and leaves in the
    destination a value equal to that of the source. *)
Definition round_trips (k : Kind) (src dst : Box k) : Prop :=
  exists b, write_then_set k src dst = (Returned tt, mkFrame b [] [])
            /\ equal_values k (value b) (value src).
End Dispatch.

(** ** A text format to run examples with *)

(** Modelled from the spec: "plain decimal text for numeric settings".  A
    literal is a non-empty run of decimal digits whose value fits in 64
    bits. *)
Fixpoint digits_value (acc : Z) (s : string) : option Z :=
  match s with
  | EmptyString => Some acc
  | String c rest =>
      let d := Z.of_N (N_of_ascii c) - 48 in
      if (0 <=? d) && (d <=? 9) then digits_value (10 * acc + d) rest else None
  end.

Definition decimal_UInt64 (s : string) : option UInt64 :=
  match s with
  | EmptyString => None
  | _ =>
      match digits_value 0 s with
      | Some v => if v <? two64 then Some v else None
      | None => None
      end
  end.

(** Modelled from the spec: a float travels as "its decimal text form" and
    is "parsed back with standard float parsing".  In the example format a
    float is printed as the exact decimal expansion of its value, which is
    finite for every binary number, and a decimal numeral is read as the
    float nearest to it, ties to even. *)
Definition decimal_digits (n : Z) : string :=
  NilZero.string_of_uint (N.to_uint (Z.to_N n)).

Fixpoint zeros (n : nat) : string :=
  match n with
  | O => EmptyString
  | S n' => String "0" (zeros n')
  end.

Definition pad_left (width : nat) (s : string) : string :=
  (zeros (width - String.length s) ++ s)%string.

Fixpoint strip_trailing_zeros (s : string) : string :=
  match s with
  | EmptyString => EmptyString
  | String c rest =>
      match strip_trailing_zeros rest with
      | EmptyString => if Ascii.eqb c "0" then EmptyString else String c EmptyString
      | rest' => String c rest'
      end
  end.

Definition sign_text (s : bool) : string := if s then "-" else "".

Definition exact_decimal_toString (x : float) : string :=
  match x with
  | S754_zero s => (sign_text s ++ "0")%string
  | S754_infinity s => (sign_text s ++ "inf")%string
  | S754_nan => "nan"%string
  | S754_finite s m e =>
      let magnitude :=
        if 0 <=? e then decimal_digits (Zpos m * 2 ^ e)
        else
          let k := - e in
          let whole := decimal_digits (Zpos m / 2 ^ k) in
          match strip_trailing_zeros
                  (pad_left (Z.to_nat k)
                     (decimal_digits ((Zpos m mod 2 ^ k) * 5 ^ k))) with
          | EmptyString => whole
          | fraction => (whole ++ "." ++ fraction)%string
          end in
      (sign_text s ++ magnitude)%string
  end.

Fixpoint split_at_point (s : string) : string * string :=
  match s with
  | EmptyString => (EmptyString, EmptyString)
  | String c rest =>
      if Ascii.eqb c "." then (EmptyString, rest)
      else let (a, b) := split_at_point rest in (String c a, b)
  end.

Definition nearest_float_parse (s : string) : option float :=
  let (negative, body) :=
    match s with
    | String "-" rest => (true, rest)
    | _ => (false, s)
    end in
  if (body =? "nan")%string then Some S754_nan
  else if (body =? "inf")%string then Some (S754_infinity negative)
  else
    let (whole, fraction) := split_at_point body in
    match whole with
    | EmptyString => None
    | _ =>
        match digits_value 0 (whole ++ fraction)%string with
        | None => None
        | Some 0 => Some (S754_zero negative)
        | Some n =>
            Some (SFdiv 24 128
                    (S754_finite negative (Z.to_pos n) 0)
                    (S754_finite false
                       (Z.to_pos (10 ^ Z.of_nat (String.length fraction))) 0))
        end
    end.

Definition decimal_text : TextFormat :=
  {| parse_UInt64_text := decimal_UInt64;
     parse_float_text := nearest_float_parse;
     toString_float := exact_decimal_toString |}.

(** ** Vocabulary of the statements *)

(** [contains needle hay]: the text [needle] occurs in [hay]. *)
Fixpoint contains (needle hay : string) : bool :=
  String.prefix needle hay
  || match hay with
     | EmptyString => false
     | String _ rest => contains needle rest
     end.

(** The texts the lookup function of each enumerated struct compares
    against ([getLoadBalancing], [getTotalsMode],
    [getOverflowModeForGroupBy]). *)
Definition names_of (e : EnumKind) : list string :=
  match e with
  | LoadBalancingBox => ["random"; "nearest_hostname"]
  | TotalsModeBox =>
      ["before_having"; "after_having_exclusive"; "after_having_inclusive";
       "after_having_auto"]
  | OverflowModeBox _ => ["throw"; "break"; "any"]
  end%string.

(** The ordinals the enumeration declares: first to last enumerator. *)
Definition in_range (e : EnumKind) : ValueOf (Enumerated e) -> bool :=
  match e with
  | LoadBalancingBox => fun v => (RANDOM <=? v) && (v <=? NEAREST_HOSTNAME)
  | TotalsModeBox => fun v => (BEFORE_HAVING <=? v) && (v <=? AFTER_HAVING_AUTO)
  | OverflowModeBox _ => fun v => (THROW <=? v) && (v <=? ANY)
  end.

(** A [set] overload other than the native ones. *)
Definition from_outside {k : Kind} (c : SetCall k) : bool :=
  match c with
  | ByNative _ => false
  | _ => true
  end.

(** The names the text [set] of a box returns on: those of the table, less
    "any" where the template argument forbids it. *)
Definition accepted_names (e : EnumKind) : list string :=
  match e with
  | OverflowModeBox false => ["throw"; "break"]%string
  | _ => names_of e
  end.

(** The types of variant the [set (const Field &)] of a box takes. *)
Definition accepts_variant (k : Kind) (t : Types) : bool :=
  match k with
  | UnsignedIntegerBox | SecondsBox | MillisecondsBox => Types_eqb t Types_UInt64
  | FloatBox =>
      Types_eqb t Types_UInt64 || Types_eqb t Types_Int64
      || Types_eqb t Types_Float64
  | Enumerated _ => Types_eqb t Types_String
  end.

(** The value of a box is one its member type can hold, and one whose text
    has a length that a [size_t] can hold. *)
Definition fits `{TextFormat} (k : Kind) : Box k -> Prop :=
  match k with
  | UnsignedIntegerBox => fun b => is_UInt64 (value b)
  | FloatBox => fun b => Z.of_nat (String.length (toString_float (value b))) < two64
  | _ => fun _ => True
  end.

(** [write] of a box of one kind into an empty buffer, then
    [set (ReadBuffer &)] of a box of a possibly different kind on the bytes
    written. *)
Definition write_then_read `{TextFormat} (k1 k2 : Kind) (src : Box k1) (dst : Box k2)
  : Outcome unit * Frame (Box k2) :=
  match write_of k1 (mkFrame src [] []) with
  | (Returned _, f) => set_of k2 ByReadBuffer (mkFrame dst (ostr f) [])
  | (Thrown e, _) => (Thrown e, mkFrame dst [] [])
  end.

(** A caller's use of a box over time: a member is run on the buffer the
    caller hands in, an exception is caught, and the box lives on. *)
Record Step (k : Kind) : Type := mkStep { step_op : Op k; step_input : ReadBuffer }.
Arguments mkStep {k} step_op step_input.
Arguments step_op {k} s.
Arguments step_input {k} s.

Definition after_step `{TextFormat} (k : Kind) (b : Box k) (s : Step k) : Box k :=
  this (snd (perform k (step_op s) (mkFrame b (step_input s) []))).

Definition after_steps `{TextFormat} (k : Kind) (steps : list (Step k)) (b : Box k)
  : Box k :=
  fold_left (after_step k) steps b.

(** A statement that never writes to [*this]. *)
Definition keeps_this {B A} (m : Method B A) : Prop :=
  forall f r f', m f = (r, f') -> this f' = this f.

(** A statement that leaves [*this] as it found it whenever it throws. *)
Definition atomic {B A} (m : Method B A) : Prop :=
  forall f e f', m f = (Thrown e, f') -> this f' = this f.

(** A statement after whose return the flag is set. *)
Definition marks {T A} (m : Method (Setting T) A) : Prop :=
  forall f a f', m f = (Returned a, f') -> changed (this f') = true.

(** A statement that never clears a flag that is set. *)
Definition never_clears {T A} (m : Method (Setting T) A) : Prop :=
  forall f r f', m f = (r, f') -> changed (this f) = true -> changed (this f') = true.

(** ** Bytes and variable-length integers: the codec is lossless *)

Lemma Z_of_byte_of_Z (z : Z) : 0 <= z < 256 -> Z_of_byte (byte_of_Z z) = z.
Proof.
  intros Hz. unfold Z_of_byte, byte_of_Z.
  destruct (Byte.of_N (Z.to_N z)) as [b|] eqn:E.
  - apply Byte.to_of_N in E. rewrite E. apply Z2N.id. lia.
  - apply Byte.of_N_None_iff in E. lia.
Qed.

Lemma land_low7 (x : Z) : Z.land x 0x7F = x mod 128.
Proof. change 0x7F with (Z.ones 7). rewrite Z.land_ones by lia. reflexivity. Qed.

Lemma lor_shiftl_add (a b n : Z) :
  0 <= n -> 0 <= a < 2 ^ n -> Z.lor a (Z.shiftl b n) = a + b * 2 ^ n.
Proof.
  intros Hn Ha.
  assert (Hdisj : Z.land a (Z.shiftl b n) = 0).
  { apply Z.bits_inj'. intros k Hk.
    rewrite Z.land_spec, Z.bits_0.
    destruct (Z.lt_ge_cases k n) as [Hlt | Hge].
    - rewrite (Z.shiftl_spec_low b n k Hlt). apply andb_false_r.
    - rewrite <- (Z.mod_small a (2 ^ n)) by lia.
      rewrite Z.mod_pow2_bits_high by lia. reflexivity. }
  rewrite <- Z.lxor_lor by exact Hdisj.
  rewrite <- Z.add_nocarry_lxor by exact Hdisj.
  rewrite Z.shiftl_mul_pow2 by lia. reflexivity.
Qed.

Lemma continuation_byte (a : Z) :
  0 <= a < 128 ->
  Z.lor a 0x80 = a + 128 /\ Z.testbit (a + 128) 7 = true
  /\ (a + 128) mod 128 = a /\ Z.testbit a 7 = false.
Proof.
  intros Ha. repeat split.
  - change (Z.lor a 0x80) with (Z.lor a (Z.shiftl 1 7)).
    rewrite lor_shiftl_add; change (2 ^ 7) with 128; lia.
  - apply Z.testbit_true; [lia|].
    change (2 ^ 7) with 128.
    replace ((a + 128) / 128) with 1; [reflexivity|].
    apply Z.div_unique with (r := a); lia.
  - rewrite <- (Z.mod_unique (a + 128) 128 1 a); lia.
  - apply Z.testbit_false; [lia|].
    change (2 ^ 7) with 128. rewrite Z.div_small by lia. reflexivity.
Qed.

Lemma encodeVarUInt_step (n : nat) (x : Z) :
  encodeVarUInt (S n) x
  = if x >? 0x7F
    then byte_of_Z (Z.lor (Z.land x 0x7F) 0x80) :: encodeVarUInt n (Z.shiftr x 7)
    else [byte_of_Z (Z.land x 0x7F)].
Proof. reflexivity. Qed.

Lemma decode_encode (n : nat) :
  forall x shift acc rest,
    0 <= x < 2 ^ (7 * Z.of_nat (S n)) ->
    0 <= shift ->
    0 <= acc < 2 ^ shift ->
    acc + x * 2 ^ shift < two64 ->
    decodeVarUInt shift acc (encodeVarUInt (S n) x ++ rest)
    = Some (acc + x * 2 ^ shift, rest).
Proof.
  assert (last : forall x shift acc rest,
             0 <= x <= 127 -> 0 <= shift -> 0 <= acc < 2 ^ shift ->
             acc + x * 2 ^ shift < two64 ->
             decodeVarUInt shift acc ([byte_of_Z (Z.land x 0x7F)] ++ rest)
             = Some (acc + x * 2 ^ shift, rest)).
  { intros x shift acc rest Hx Hs Ha Hb. cbn [app decodeVarUInt].
    rewrite land_low7, (Z.mod_small x 128) by lia.
    rewrite Z_of_byte_of_Z by lia.
    destruct (continuation_byte x) as (_ & _ & _ & ->); [lia|].
    rewrite land_low7, (Z.mod_small x 128) by lia.
    rewrite lor_shiftl_add by lia.
    unfold to_UInt64. rewrite Z.mod_small; [reflexivity|].
    assert (0 <= x * 2 ^ shift) by (apply Z.mul_nonneg_nonneg; lia). lia. }
  induction n as [|n IH]; intros x shift acc rest Hx Hs Ha Hb.
  - change (2 ^ (7 * Z.of_nat 1)) with 128 in Hx.
    rewrite encodeVarUInt_step.
    destruct (x >? 0x7F) eqn:E; [apply Z.gtb_lt in E; lia|].
    apply last; lia.
  - rewrite (encodeVarUInt_step (S n) x).
    destruct (x >? 0x7F) eqn:E.
    + apply Z.gtb_lt in E.
      assert (Hm : 0 <= x mod 128 < 128) by (apply Z.mod_pos_bound; lia).
      assert (Hd : x = 128 * (x / 128) + x mod 128) by (apply Z.div_mod; lia).
      assert (Hp : 0 < 2 ^ shift) by (apply Z.pow_pos_nonneg; lia).
      assert (Hq : 2 ^ (shift + 7) = 2 ^ shift * 128)
        by (rewrite Z.pow_add_r by lia; reflexivity).
      assert (Hx7 : 0 <= x / 128 < 2 ^ (7 * Z.of_nat (S n))).
      { split; [apply Z.div_pos; lia|].
        apply Z.div_lt_upper_bound; [lia|].
        replace (128 * 2 ^ (7 * Z.of_nat (S n))) with (2 ^ (7 * Z.of_nat (S (S n))));
          [lia|].
        replace (7 * Z.of_nat (S (S n))) with (7 + 7 * Z.of_nat (S n)) by lia.
        rewrite Z.pow_add_r by lia. reflexivity. }
      rewrite land_low7.
      destruct (continuation_byte (x mod 128) Hm) as (Hlor & Hbit & Hlow & _).
      rewrite Hlor.
      rewrite <- app_comm_cons. cbn [decodeVarUInt].
      rewrite Z_of_byte_of_Z by lia.
      rewrite Hbit, land_low7, Hlow.
      rewrite lor_shiftl_add by lia.
      unfold to_UInt64 at 1.
      assert (Hsmall : 0 <= acc + x mod 128 * 2 ^ shift < 2 ^ shift * 128) by nia.
      rewrite Z.mod_small by nia.
      rewrite Z.shiftr_div_pow2 by lia. change (2 ^ 7) with 128.
      rewrite IH; [ | exact Hx7 | lia | lia | nia ].
      f_equal. f_equal. nia.
    + rewrite Z.gtb_ltb in E. apply Z.ltb_ge in E. apply last; lia.
Qed.

Lemma decode_varUInt (x : UInt64) (rest : list byte) :
  is_UInt64 x -> decodeVarUInt 0 0 (varUInt x ++ rest) = Some (x, rest).
Proof.
  intros [Hlo Hhi]. unfold varUInt.
  rewrite decode_encode.
  - f_equal. f_equal. change (2 ^ 0) with 1. lia.
  - split; [exact Hlo|].
    eapply Z.lt_trans; [exact Hhi|]. reflexivity.
  - lia.
  - change (2 ^ 0) with 1. lia.
  - change (2 ^ 0) with 1. lia.
Qed.

Lemma readVarUInt_written {B} (b : B) (x : UInt64) (rest : list byte) (o : WriteBuffer) :
  is_UInt64 x ->
  readVarUInt (mkFrame b (varUInt x ++ rest) o) = (Returned x, mkFrame b rest o).
Proof.
  intros Hx. unfold readVarUInt. cbn [istr this ostr].
  rewrite decode_varUInt by exact Hx. reflexivity.
Qed.

Lemma length_list_byte_of_string (s : string) :
  List.length (list_byte_of_string s) = String.length s.
Proof.
  unfold list_byte_of_string. rewrite length_map.
  induction s as [|c s IH]; cbn; [reflexivity | now rewrite IH].
Qed.

Lemma readBinary_written {B} (b : B) (s : string) (rest : list byte) (o : WriteBuffer) :
  Z.of_nat (String.length s) < two64 ->
  readBinary (mkFrame b (stringBinary s ++ rest) o) = (Returned s, mkFrame b rest o).
Proof.
  intros Hs. unfold readBinary, bind, stringBinary.
  rewrite <- app_assoc, readVarUInt_written by (unfold is_UInt64; lia).
  cbn [istr this ostr].
  rewrite length_app, length_list_byte_of_string.
  destruct (Z.ltb_spec (Z.of_nat (String.length s + List.length rest))
              (Z.of_nat (String.length s))) as [Hlt | _]; [lia|].
  rewrite Nat2Z.id, <- (length_list_byte_of_string s).
  rewrite firstn_app, Nat.sub_diag, firstn_all, firstn_O, app_nil_r.
  rewrite skipn_app, Nat.sub_diag, skipn_all, skipn_O.
  rewrite string_of_list_byte_of_string. reflexivity.
Qed.

(** ** Reasoning about methods *)

Lemma keeps_this_ret {B A} (a : A) : keeps_this (@ret (Frame B) A a).
Proof. intros f r f' E. inversion E. reflexivity. Qed.

Lemma keeps_this_throw {B A} (e : Exception) : keeps_this (@throw (Frame B) A e).
Proof. intros f r f' E. inversion E. reflexivity. Qed.

Lemma keeps_this_call {B A} (r : Outcome A) : keeps_this (@call (Frame B) A r).
Proof. intros f r' f' E. inversion E. reflexivity. Qed.

Lemma keeps_this_bind {B A C} (m : Method B A) (k : A -> Method B C) :
  keeps_this m -> (forall a, keeps_this (k a)) -> keeps_this (bind m k).
Proof.
  intros Hm Hk f r f' E. unfold bind in E.
  destruct (m f) as [[a | e] f1] eqn:Em.
  - rewrite (Hk a _ _ _ E). exact (Hm _ _ _ Em).
  - inversion E; subst. exact (Hm _ _ _ Em).
Qed.

Lemma keeps_this_readVarUInt {B} : keeps_this (@readVarUInt B).
Proof.
  intros f r f' E. unfold readVarUInt in E.
  destruct (decodeVarUInt 0 0 (istr f)) as [[x rest]|]; inversion E; reflexivity.
Qed.

Lemma keeps_this_readBinary {B} : keeps_this (@readBinary B).
Proof.
  apply keeps_this_bind; [apply keeps_this_readVarUInt|].
  intros n f r f' E.
  destruct (Z.of_nat (List.length (istr f)) <? n); inversion E; reflexivity.
Qed.

Lemma keeps_this_writeBytes {B} (bs : list byte) : keeps_this (@writeBytes B bs).
Proof. intros f r f' E. inversion E. reflexivity. Qed.

Lemma keeps_this_read_value {T} : keeps_this (@read_value T).
Proof. intros f r f' E. inversion E. reflexivity. Qed.

Lemma keeps_this_if {B A} (c : bool) (m1 m2 : Method B A) :
  keeps_this m1 -> keeps_this m2 -> keeps_this (if c then m1 else m2).
Proof. destruct c; auto. Qed.

Lemma keeps_this_atomic {B A} (m : Method B A) : keeps_this m -> atomic m.
Proof. intros Hm f e f' E. exact (Hm _ _ _ E). Qed.

Lemma keeps_this_never_clears {T A} (m : Method (Setting T) A) :
  keeps_this m -> never_clears m.
Proof. intros Hm f r f' E Hc. rewrite (Hm _ _ _ E). exact Hc. Qed.

Lemma atomic_bind {B A C} (m : Method B A) (k : A -> Method B C) :
  keeps_this m -> (forall a, atomic (k a)) -> atomic (bind m k).
Proof.
  intros Hm Hk f e f' E. unfold bind in E.
  destruct (m f) as [[a | e'] f1] eqn:Em.
  - rewrite (Hk a _ _ _ E). exact (Hm _ _ _ Em).
  - inversion E; subst. exact (Hm _ _ _ Em).
Qed.

Lemma atomic_if {B A} (c : bool) (m1 m2 : Method B A) :
  atomic m1 -> atomic m2 -> atomic (if c then m1 else m2).
Proof. destruct c; auto. Qed.

Lemma marks_bind {T A C} (m : Method (Setting T) A) (k : A -> Method (Setting T) C) :
  (forall a, marks (k a)) -> marks (bind m k).
Proof.
  intros Hk f c f' E. unfold bind in E.
  destruct (m f) as [[a | e'] f1] eqn:Em.
  - exact (Hk a _ _ _ E).
  - discriminate E.
Qed.

Lemma marks_throw {T A} (e : Exception) : marks (@throw (Frame (Setting T)) A e).
Proof. intros f a f' E. discriminate E. Qed.

Lemma marks_if {T A} (c : bool) (m1 m2 : Method (Setting T) A) :
  marks m1 -> marks m2 -> marks (if c then m1 else m2).
Proof. destruct c; auto. Qed.

Lemma atomic_marks_never_clears {T A} (m : Method (Setting T) A) :
  atomic m -> marks m -> never_clears m.
Proof.
  intros Ha Hm f [a | e] f' E Hc.
  - exact (Hm _ _ _ E).
  - rewrite (Ha _ _ _ E). exact Hc.
Qed.

(** The two assignments every native [set] consists of. *)
Lemma store_run {T} (x : T) (f : Frame (Setting T)) :
  (assign_value x ;; assign_changed true) f
  = (Returned tt, mkFrame (mkSetting x true) (istr f) (ostr f)).
Proof. reflexivity. Qed.

Lemma atomic_store {T} (x : T) : atomic (assign_value x ;; assign_changed true).
Proof. intros f e f' E. rewrite store_run in E. discriminate E. Qed.

Lemma marks_store {T} (x : T) : marks (assign_value x ;; assign_changed true).
Proof. intros f a f' E. rewrite store_run in E. inversion E. reflexivity. Qed.

Create HintDb methods.
#[local] Hint Resolve keeps_this_ret keeps_this_throw keeps_this_call
  keeps_this_readVarUInt keeps_this_readBinary keeps_this_writeBytes
  keeps_this_read_value keeps_this_atomic atomic_store marks_store
  marks_throw : methods.
#[local] Hint Extern 1 (atomic (bind (assign_value _) _)) =>
  apply atomic_store : methods.
#[local] Hint Extern 1 (marks (bind (assign_value _) _)) =>
  apply marks_store : methods.
#[local] Hint Extern 2 (keeps_this (bind _ _)) =>
  apply keeps_this_bind; [ | intro; cbv beta ] : methods.
#[local] Hint Extern 2 (atomic (bind _ _)) =>
  apply atomic_bind; [ | intro; cbv beta ] : methods.
#[local] Hint Extern 2 (marks (bind _ _)) =>
  apply marks_bind; intro; cbv beta : methods.
#[local] Hint Extern 2 (keeps_this (if _ then _ else _)) =>
  apply keeps_this_if : methods.
#[local] Hint Extern 2 (atomic (if _ then _ else _)) =>
  apply atomic_if : methods.
#[local] Hint Extern 2 (marks (if _ then _ else _)) =>
  apply marks_if : methods.

(** ** Conversion to binary32: the bit shifts of the library are the
    arithmetic of rounding *)

Lemma fexp32 (x : Z) : fexp 24 128 x = Z.max (x - 24) (-149).
Proof. reflexivity. Qed.

Lemma digits2_pos_size (m : positive) : digits2_pos m = Pos.size m.
Proof. induction m as [m IH | m IH | ]; cbn; [rewrite IH | rewrite IH | ]; reflexivity. Qed.

Lemma digits2_pos_log2 (m : positive) : Zpos (digits2_pos m) = Z.log2 (Zpos m) + 1.
Proof.
  rewrite digits2_pos_size. destruct m; cbn [Z.log2 Pos.size]; lia.
Qed.

Lemma shr_nothing (mrs : shr_record) (e n : Z) : n <= 0 -> shr mrs e n = (mrs, e).
Proof. destruct n; [reflexivity | lia | reflexivity]. Qed.

Lemma shr_1_nonneg (m : Z) (r s : bool) :
  0 <= m ->
  shr_1 (Build_shr_record m r s) = Build_shr_record (Z.div2 m) (Z.odd m) (r || s).
Proof. destruct m as [ | [p | p | ] | p]; intros Hm; try reflexivity; lia. Qed.

Lemma iter_pos_nat {A} (f : A -> A) (p : positive) :
  forall x, iter_pos f p x = Nat.iter (Pos.to_nat p) f x.
Proof.
  induction p as [p IH | p IH | ]; intros x; cbn [iter_pos].
  - rewrite !IH, Pos2Nat.inj_xI. 
    replace (S (2 * Pos.to_nat p)) with (Pos.to_nat p + (Pos.to_nat p + 1))%nat by lia.
    rewrite !Nat.iter_add. reflexivity.
  - rewrite !IH, Pos2Nat.inj_xO.
    replace (2 * Pos.to_nat p)%nat with (Pos.to_nat p + Pos.to_nat p)%nat by lia.
    rewrite Nat.iter_add. reflexivity.
  - reflexivity.
Qed.

Lemma low_bits_step (M n : Z) :
  0 <= n ->
  M mod 2 ^ (n + 1) = M mod 2 ^ n + 2 ^ n * Z.b2z (Z.testbit M n).
Proof.
  intros Hn. rewrite Z.pow_add_r by lia. change (2 ^ 1) with 2.
  rewrite Z.rem_mul_r by (try apply Z.pow_nonzero; lia).
  rewrite <- Z.testbit_spec' by lia. reflexivity.
Qed.

Lemma shr_iterated (n : nat) (M : Z) :
  0 <= M ->
  Nat.iter (S n) shr_1 (Build_shr_record M false false)
  = Build_shr_record (M / 2 ^ Z.of_nat (S n)) (Z.testbit M (Z.of_nat n))
      (negb (M mod 2 ^ Z.of_nat n =? 0)).
Proof.
  intros HM. induction n as [|n IH].
  - cbn [Nat.iter]. rewrite shr_1_nonneg by exact HM.
    rewrite Z.div2_div, Z.bit0_odd. cbn [Z.of_nat]. change (2 ^ 0) with 1.
    rewrite Z.mod_1_r. reflexivity.
  - change (Nat.iter (S (S n)) shr_1 ?x) with (shr_1 (Nat.iter (S n) shr_1 x)).
    rewrite IH.
    assert (Hp : 0 < 2 ^ Z.of_nat (S n)) by (apply Z.pow_pos_nonneg; lia).
    rewrite shr_1_nonneg by (apply Z.div_pos; lia).
    f_equal.
    + rewrite Z.div2_div, Z.div_div by lia.
      rewrite (Nat2Z.inj_succ (S n)), Z.pow_succ_r by lia.
      f_equal. lia.
    + rewrite Z.testbit_odd, Z.shiftr_div_pow2 by lia. reflexivity.
    + rewrite (Nat2Z.inj_succ n), <- Z.add_1_r.
      rewrite low_bits_step by lia.
      assert (Hl : 0 <= M mod 2 ^ Z.of_nat n)
        by (apply Z.mod_pos_bound, Z.pow_pos_nonneg; lia).
      assert (Hq : 0 < 2 ^ Z.of_nat n) by (apply Z.pow_pos_nonneg; lia).
      destruct (Z.testbit M (Z.of_nat n)); cbn [Z.b2z orb].
      * destruct (Z.eqb_spec (M mod 2 ^ Z.of_nat n + 2 ^ Z.of_nat n * 1) 0); [lia | reflexivity].
      * rewrite Z.mul_0_r, Z.add_0_r. reflexivity.
Qed.

Lemma rounding_of_shifted (M k : Z) :
  0 <= M -> 0 < k ->
  round_nearest_even (M / 2 ^ k)
    (loc_of_shr_record
       (Build_shr_record (M / 2 ^ k) (Z.testbit M (k - 1))
          (negb (M mod 2 ^ (k - 1) =? 0))))
  = round_half_even M k.
Proof.
  intros HM Hk. unfold round_half_even.
  remember (k - 1) as j eqn:Hj.
  assert (Hj0 : 0 <= j) by lia.
  replace k with (j + 1) by lia. clear Hj Hk.
  rewrite low_bits_step by lia.
  assert (Hh : 0 < 2 ^ j) by (apply Z.pow_pos_nonneg; lia).
  assert (Hl : 0 <= M mod 2 ^ j < 2 ^ j) by (apply Z.mod_pos_bound; lia).
  set (q := M / 2 ^ (j + 1)).
  rewrite (Z.pow_add_r 2 j 1) by lia. change (2 ^ 1) with 2.
  set (h := 2 ^ j) in *. set (t := M mod h) in *.
  destruct (Z.testbit M j); cbn [Z.b2z];
    destruct (Z.eqb_spec t 0) as [Ht | Ht]; cbn [negb loc_of_shr_record round_nearest_even].
  - rewrite Ht. replace (2 * (0 + h * 1) ?= h * 2) with Eq; [reflexivity|].
    symmetry. apply Z.compare_eq_iff. lia.
  - replace (2 * (t + h * 1) ?= h * 2) with Gt; [reflexivity|].
    symmetry. apply Z.compare_gt_iff. lia.
  - replace (2 * (t + h * 0) ?= h * 2) with Lt; [reflexivity|].
    symmetry. apply Z.compare_lt_iff. lia.
  - replace (2 * (t + h * 0) ?= h * 2) with Lt; [reflexivity|].
    symmetry. apply Z.compare_lt_iff. lia.
Qed.

Lemma shr_by (M e k : Z) :
  0 <= M -> 0 < k ->
  shr (Build_shr_record M false false) e k
  = (Build_shr_record (M / 2 ^ k) (Z.testbit M (k - 1))
       (negb (M mod 2 ^ (k - 1) =? 0)), e + k).
Proof.
  intros HM Hk. destruct k as [ | p | p]; try lia.
  cbn [shr]. rewrite iter_pos_nat.
  destruct (Pos2Nat.is_succ p) as [n Hn]. rewrite Hn.
  rewrite shr_iterated by exact HM.
  assert (Hz : Zpos p = Z.of_nat (S n)) by (rewrite <- Hn; symmetry; apply positive_nat_Z).
  rewrite Hz. replace (Z.of_nat (S n) - 1) with (Z.of_nat n) by lia.
  reflexivity.
Qed.

Lemma binary_round_aux_unshifted (s : bool) (mz : positive) (ez : Z) :
  fexp 24 128 (Zpos (digits2_pos mz) + ez) <= ez ->
  binary_round_aux 24 128 s (Zpos mz) ez loc_Exact
  = finite_or_infinity s (Zpos mz) ez.
Proof.
  intros Hf. unfold binary_round_aux, shr_fexp.
  cbn [Zdigits2 shr_record_of_loc].
  rewrite shr_nothing by lia.
  cbn [shr_m loc_of_shr_record round_nearest_even Zdigits2 shr_record_of_loc].
  rewrite shr_nothing by lia.
  reflexivity.
Qed.

Lemma round_half_even_bounds (M k : Z) :
  0 <= M -> 0 <= k ->
  M / 2 ^ k <= round_half_even M k <= M / 2 ^ k + 1.
Proof.
  intros HM Hk. unfold round_half_even.
  destruct (2 * (M mod 2 ^ k) ?= 2 ^ k); [destruct (Z.even _) | | ]; lia.
Qed.

Lemma shl_align_kept (mx : positive) (ex ex' : Z) :
  ex <= ex' -> shl_align mx ex ex' = (mx, ex).
Proof.
  intros Hl. unfold shl_align.
  destruct (ex' - ex) eqn:E; [reflexivity | reflexivity | lia].
Qed.

Lemma shl_align_shifted (mx : positive) (ex ex' : Z) :
  ex' < ex ->
  exists mz, shl_align mx ex ex' = (mz, ex') /\ Zpos mz = Zpos mx * 2 ^ (ex - ex').
Proof.
  intros Hl. unfold shl_align.
  destruct (ex' - ex) as [ | p | p] eqn:E; try lia.
  exists (Pos.iter xO mx p). split; [reflexivity|].
  change (Pos.iter xO mx p) with (shift_pos p mx).
  rewrite shift_pos_correct, Z.pow_pos_fold.
  replace (ex - ex') with (Zpos p) by lia. lia.
Qed.

Lemma binary_round_is_nearest (s : bool) (m : positive) (e : Z) :
  binary_round 24 128 s m e = nearest_binary32 s m e.
Proof.
  unfold binary_round, nearest_binary32.
  rewrite fexp32, digits2_pos_log2.
  set (d := Z.log2 (Zpos m) + 1).
  assert (Hd : Zpos m < 2 ^ d).
  { unfold d. replace (Z.log2 (Z.pos m) + 1) with (Z.succ (Z.log2 (Z.pos m))) by lia.
    apply Z.log2_spec. lia. }
  set (e0 := Z.max (d + e - 24) (-149)).
  destruct (Z.leb_spec e0 e) as [Hle | Hgt].
  - (* the mantissa is shifted left, nothing is lost *)
    destruct (Z.eq_dec e0 e) as [He | He].
    + rewrite shl_align_kept by lia.
      rewrite binary_round_aux_unshifted.
      * replace (e - e0) with 0 by lia. rewrite Z.mul_1_r, He. reflexivity.
      * rewrite fexp32, digits2_pos_log2. fold d. fold e0. lia.
    + destruct (shl_align_shifted m e e0 ltac:(lia)) as (mz & -> & Hs).
      rewrite binary_round_aux_unshifted.
      * rewrite Hs. reflexivity.
      * rewrite fexp32, digits2_pos_log2, Hs.
        rewrite Z.log2_mul_pow2 by lia.
        replace (e - e0 + Z.log2 (Z.pos m) + 1 + e0 - 24) with (d + e - 24)
          by (unfold d; lia).
        fold e0. lia.
  - (* the mantissa is shifted right and rounded *)
    rewrite shl_align_kept by lia.
    unfold binary_round_aux, shr_fexp.
    cbn [Zdigits2 shr_record_of_loc].
    rewrite fexp32, digits2_pos_log2. fold d. fold e0.
    rewrite shr_by by lia.
    cbn [shr_m].
    rewrite rounding_of_shifted by lia.
    replace (e + (e0 - e)) with e0 by lia.
    assert (Hq : 0 <= Zpos m / 2 ^ (e0 - e) < 2 ^ 24).
    { split; [apply Z.div_pos; [lia | apply Z.pow_pos_nonneg; lia]|].
      apply Z.div_lt_upper_bound; [apply Z.pow_pos_nonneg; lia|].
      rewrite <- Z.pow_add_r by lia.
      eapply Z.lt_le_trans; [exact Hd|].
      apply Z.pow_le_mono_r; lia. }
    assert (Hb := round_half_even_bounds (Zpos m) (e0 - e) ltac:(lia) ltac:(lia)).
    set (q := round_half_even (Zpos m) (e0 - e)) in *.
    destruct (Z.eqb_spec q 0) as [Hq0 | Hq0].
    + rewrite Hq0. cbn [Zdigits2]. rewrite shr_nothing; [reflexivity|].
      rewrite fexp32. fold e0. lia.
    + destruct (Z.eqb_spec q (2 ^ 24)) as [Hq1 | Hq1].
      * rewrite Hq1. change (Zdigits2 (2 ^ 24)) with 25.
        rewrite fexp32.
        replace (Z.max (25 + e0 - 24) (-149) - e0) with 1 by lia.
        reflexivity.
      * assert (Hqr : 0 < q < 2 ^ 24) by lia.
        destruct q as [ | qp | qp]; try lia.
        cbn [Zdigits2]. rewrite shr_nothing; [reflexivity|].
        rewrite fexp32, digits2_pos_log2.
        assert (Z.log2 (Zpos qp) < 24) by (apply Z.log2_lt_pow2; lia).
        lia.
Qed.

Lemma nearest_binary32_exact (s : bool) (m : positive) (e : Z) (m' : positive) (e' : Z) :
  bounded 24 128 m' e' = true ->
  same_dyadic m e m' e' ->
  nearest_binary32 s m e = S754_finite s m' e'.
Proof.
  unfold bounded, canonical_mantissa, same_dyadic. intros Hb Hv.
  apply andb_true_iff in Hb. destruct Hb as [Hc He].
  apply Z.eqb_eq in Hc. apply Z.leb_le in He. change (128 - 24) with 104 in He.
  rewrite fexp32, digits2_pos_log2 in Hc.
  assert (Hm' : Zpos m' < 2 ^ 24).
  { apply Z.log2_lt_pow2; lia. }
  unfold nearest_binary32.
  destruct (Z.le_gt_cases e' e) as [Hle | Hgt].
  - rewrite Z.min_r, Z.sub_diag, Z.mul_1_r in Hv by lia.
    assert (Hl : Z.log2 (Zpos m') = e - e' + Z.log2 (Zpos m)).
    { rewrite <- Hv. apply Z.log2_mul_pow2; lia. }
    replace (Z.max (Z.log2 (Z.pos m) + 1 + e - 24) (-149)) with e' by lia.
    destruct (Z.leb_spec e' e); [|lia].
    rewrite Hv. unfold finite_or_infinity.
    destruct (Z.leb_spec e' 104); [reflexivity | lia].
  - rewrite Z.min_l, Z.sub_diag, Z.mul_1_r in Hv by lia.
    assert (Hl : Z.log2 (Zpos m) = e' - e + Z.log2 (Zpos m')).
    { rewrite Hv. apply Z.log2_mul_pow2; lia. }
    replace (Z.max (Z.log2 (Z.pos m) + 1 + e - 24) (-149)) with e' by lia.
    destruct (Z.leb_spec e' e); [lia|].
    assert (Hp : 0 < 2 ^ (e' - e)) by (apply Z.pow_pos_nonneg; lia).
    assert (Hr : round_half_even (Zpos m) (e' - e) = Zpos m').
    { unfold round_half_even. rewrite Hv.
      rewrite Z.div_mul, Z.mod_mul by lia.
      rewrite Z.mul_0_r.
      destruct (Z.compare_spec 0 (2 ^ (e' - e))); [lia | reflexivity | lia]. }
    rewrite Hr.
    destruct (Z.eqb_spec (Zpos m') 0); [lia|].
    destruct (Z.eqb_spec (Zpos m') (2 ^ 24)); [lia|].
    unfold finite_or_infinity.
    destruct (Z.leb_spec e' 104); [reflexivity | lia].
Qed.

Lemma float_of_integer_nearest (n : Z) :
  float_of_integer n
  = match n with
    | 0 => S754_zero false
    | Zpos m => nearest_binary32 false m 0
    | Zneg m => nearest_binary32 true m 0
    end.
Proof.
  destruct n; unfold float_of_integer, binary_normalize;
    try apply binary_round_is_nearest; reflexivity.
Qed.

Lemma float_of_Float64_nearest (d : float) :
  float_of_Float64 d
  = match d with
    | S754_finite s m e => nearest_binary32 s m e
    | _ => d
    end.
Proof.
  destruct d as [ | | | [ | ] m e]; try reflexivity;
    unfold float_of_Float64, binary_normalize, cond_Zopp; cbn [Z.opp];
    apply binary_round_is_nearest.
Qed.

Lemma small_integer_exact (n : Z) :
  0 < Z.abs n < 2 ^ 24 ->
  exists m e,
    float_of_integer n = S754_finite (n <? 0) m e
    /\ e <= 0 /\ Zpos m = Z.abs n * 2 ^ (- e).
Proof.
  intros Hn. rewrite float_of_integer_nearest.
  assert (Hgen : forall s p, Zpos p < 2 ^ 24 ->
            exists m e, nearest_binary32 s p 0 = S754_finite s m e
                        /\ e <= 0 /\ Zpos m = Zpos p * 2 ^ (- e)).
  { intros s p Hp. unfold nearest_binary32.
    assert (Hl : 0 <= Z.log2 (Zpos p) < 24).
    { split; [apply Z.log2_nonneg | apply Z.log2_lt_pow2; lia]. }
    set (e0 := Z.max (Z.log2 (Z.pos p) + 1 + 0 - 24) (-149)).
    assert (He0 : e0 = Z.log2 (Zpos p) + 1 - 24) by (unfold e0; lia).
    destruct (Z.leb_spec e0 0); [|lia].
    unfold finite_or_infinity. destruct (Z.leb_spec e0 104); [|lia].
    assert (Hpos : 0 < Zpos p * 2 ^ (0 - e0)).
    { apply Z.mul_pos_pos; [lia | apply Z.pow_pos_nonneg; lia]. }
    destruct (Zpos p * 2 ^ (0 - e0)) as [ | q | q] eqn:Eq; try lia.
    exists q, e0. repeat split; [lia|].
    rewrite <- Eq. f_equal. }
  destruct n as [ | p | p]; cbn [Z.abs] in Hn; try lia.
  - change (Zpos p <? 0) with false. apply Hgen. lia.
  - change (Zneg p <? 0) with true. cbn [Z.abs]. apply Hgen. lia.
Qed.

(** The aliases of a type are unfolded, so that the same term is written the
    same way everywhere. *)
Ltac plain_types :=
  cbv beta iota delta [Box ValueOf Method SettingUInt64.t SettingSeconds.t
    SettingMilliseconds.t SettingFloat.t SettingLoadBalancing.t
    SettingTotalsMode.t SettingOverflowMode.t UInt64 Int64 Timespan float
    LoadBalancing TotalsMode OverflowMode] in *.

Ltac unfold_members :=
  repeat progress unfold SettingUInt64.set_Field, SettingUInt64.set_String,
    SettingUInt64.set_ReadBuffer, SettingUInt64.assign, SettingUInt64.set,
    SettingUInt64.write,
    SettingSeconds.set_Field, SettingSeconds.set_String,
    SettingSeconds.set_ReadBuffer, SettingSeconds.set_UInt64,
    SettingSeconds.assign, SettingSeconds.set, SettingSeconds.write,
    SettingMilliseconds.set_Field, SettingMilliseconds.set_String,
    SettingMilliseconds.set_ReadBuffer, SettingMilliseconds.set_UInt64,
    SettingMilliseconds.assign, SettingMilliseconds.set,
    SettingMilliseconds.write,
    SettingFloat.set_Field, SettingFloat.set_String,
    SettingFloat.set_ReadBuffer, SettingFloat.assign, SettingFloat.set,
    SettingFloat.write,
    SettingLoadBalancing.set_Field, SettingLoadBalancing.set_String,
    SettingLoadBalancing.set_ReadBuffer, SettingLoadBalancing.assign,
    SettingLoadBalancing.set, SettingLoadBalancing.write,
    SettingLoadBalancing.toString,
    SettingTotalsMode.set_Field, SettingTotalsMode.set_String,
    SettingTotalsMode.set_ReadBuffer, SettingTotalsMode.assign,
    SettingTotalsMode.set, SettingTotalsMode.write,
    SettingTotalsMode.toString,
    SettingOverflowMode.set_Field, SettingOverflowMode.set_String,
    SettingOverflowMode.set_ReadBuffer, SettingOverflowMode.assign,
    SettingOverflowMode.set, SettingOverflowMode.write,
    SettingOverflowMode.toString, writeVarUInt, writeBinary;
  plain_types.

Ltac each_set_call k c :=
  destruct k as [ | | | | [ | | ?]];
  [ destruct c as [? | ? | ? | ]
  | destruct c as [[? | ?] | ? | ? | ]
  | destruct c as [[? | ?] | ? | ? | ]
  | destruct c as [? | ? | ? | ]
  | destruct c as [? | ? | ? | ]
  | destruct c as [? | ? | ? | ]
  | destruct c as [? | ? | ? | ] ];
  cbn [set_of].

Section Properties.
Context `{TextFormat}.

Lemma set_of_atomic (k : Kind) (c : SetCall k) : atomic (set_of k c).
Proof. each_set_call k c; unfold_members; auto 8 with methods. Qed.

Lemma set_of_marks (k : Kind) (c : SetCall k) : marks (set_of k c).
Proof. each_set_call k c; unfold_members; auto 8 with methods. Qed.

Lemma assign_of_store (k : Kind) (x : ValueOf k) (f : Frame (Box k)) :
  assign_of k x f = (Returned tt, mkFrame (mkSetting x true) (istr f) (ostr f)).
Proof. destruct k as [ | | | | [ | | ?]]; reflexivity. Qed.

Lemma write_of_keeps_this (k : Kind) : keeps_this (write_of k).
Proof.
  destruct k as [ | | | | [ | | ?]]; cbn [write_of]; unfold_members;
    auto 12 with methods.
Qed.

Lemma toString_of_keeps_this (e : EnumKind) : keeps_this (toString_of e).
Proof.
  destruct e; cbn [toString_of]; unfold_members; auto 12 with methods.
Qed.

Lemma perform_never_clears (k : Kind) (o : Op k) : never_clears (perform k o).
Proof.
  destruct o as [c | x | ]; cbn [perform].
  - apply atomic_marks_never_clears; [apply set_of_atomic | apply set_of_marks].
  - intros f r f' E _. rewrite assign_of_store in E. inversion E. reflexivity.
  - apply keeps_this_never_clears, write_of_keeps_this.
Qed.
(** C2: the flag [changed] is [false] in a freshly constructed box of the four
    non-enumerated kinds; it is [true] after every [set] call that returns,
    whichever representation the call was given and whatever the box held
    before; setting the value the box already holds returns and leaves
    [changed = true]; and no member of a box ([set], [operator=], [write],
    [toString]), returning or throwing, turns a [true] flag back to
    [false]. *)
Theorem changed_flag_discipline :
  (forall x, changed (ctor_of UnsignedIntegerBox x) = false)
  /\ (forall x, changed (ctor_of SecondsBox x) = false)
  /\ (forall x, changed (ctor_of MillisecondsBox x) = false)
  /\ (forall x, changed (ctor_of FloatBox x) = false)
  /\ (forall k (c : SetCall k) f a f',
        set_of k c f = (Returned a, f') -> changed (this f') = true)
  /\ (forall k (b : Box k) i o,
        set_of k (ByNative (native_of_value k (value b))) (mkFrame b i o)
        = (Returned tt, mkFrame (mkSetting (value b) true) i o))
  /\ (forall k (o : Op k) f r f',
        perform k o f = (r, f') ->
        changed (this f) = true -> changed (this f') = true)
  /\ (forall e f r f',
        toString_of e f = (r, f') ->
        changed (this f) = true -> changed (this f') = true).
Proof.
  repeat split; try reflexivity.
  - intros k c f a f' E. exact (set_of_marks k c f a f' E).
  - intros k b i o. destruct k as [ | | | | [ | | ?]]; reflexivity.
  - intros k o f r f' E Hc. exact (perform_never_clears k o f r f' E Hc).
  - intros e f r f' E Hc.
    exact (keeps_this_never_clears _ (toString_of_keeps_this e) f r f' E Hc).
Qed.

(** C3: a [set] call that throws, through any of the four representations
    and on any kind of box, leaves the members [value] and [changed] of the
    box exactly as they were before the call. *)
Theorem failing_set_is_all_or_nothing (k : Kind) (c : SetCall k)
    (f f' : Frame (Box k)) (e : Exception) :
  set_of k c f = (Thrown e, f') ->
  value (this f') = value (this f) /\ changed (this f') = changed (this f).
Proof.
  intros E. rewrite (set_of_atomic k c f e f' E). split; reflexivity.
Qed.

(** C4: [set ("any")] on an overflow-mode box instantiated with
    [enable_mode_any = false] throws ILLEGAL_OVERFLOW_MODE, an IllegalValue
    error whose message says that 'any' is only for the group-by overflow
    mode, and leaves the box unchanged; on a box instantiated with
    [enable_mode_any = true] the same call returns, stores [ANY] and sets
    [changed]. *)
Theorem set_any_text_on_overflow_mode (f : Frame (Box (Enumerated (OverflowModeBox false))))
    (g : Frame (Box (Enumerated (OverflowModeBox true)))) :
  set_of (Enumerated (OverflowModeBox false)) (ByString "any") f
  = (Thrown (mkException
               "Illegal overflow mode: 'any' is only for 'group_by_overflow_mode'"
               ILLEGAL_OVERFLOW_MODE), f)
  /\ kind_of ILLEGAL_OVERFLOW_MODE = IllegalValue
  /\ set_of (Enumerated (OverflowModeBox true)) (ByString "any") g
     = (Returned tt, mkFrame (mkSetting ANY true) (istr g) (ostr g)).
Proof. repeat split. Qed.

(** C10: a box of an enumerated kind is constructed from an explicit value
    of its enumeration and has [changed = false] right after construction. *)
Theorem enum_box_constructed_unchanged (e : EnumKind) (x : CtorArg (Enumerated e)) :
  changed (ctor_of (Enumerated e) x) = false
  /\ value (ctor_of (Enumerated e) x) = x.
Proof. destruct e; split; reflexivity. Qed.
Lemma to_UInt64_range (x : Z) : is_UInt64 (to_UInt64 x).
Proof. unfold is_UInt64, to_UInt64. apply Z.mod_pos_bound. reflexivity. Qed.

Lemma to_Int64_small (x : Z) : is_Int64 x -> to_Int64 x = x.
Proof.
  unfold is_Int64, to_Int64. intros Hx.
  rewrite Z.mod_small; [lia|].
  change two64 with (two63 + two63). lia.
Qed.

Lemma to_Int64_to_UInt64 (x : Z) : to_Int64 (to_UInt64 x) = to_Int64 x.
Proof.
  unfold to_Int64, to_UInt64.
  rewrite Z.add_mod_idemp_l by discriminate. reflexivity.
Qed.

Lemma to_UInt64_mul (x y : Z) : to_UInt64 (to_UInt64 x * y) = to_UInt64 (x * y).
Proof. unfold to_UInt64. rewrite Z.mul_mod_idemp_l by discriminate. reflexivity. Qed.

Lemma quot_is_Int64 (v d : Z) : 0 < d -> is_Int64 v -> is_Int64 (Z.quot v d).
Proof.
  unfold is_Int64. intros Hd Hv.
  set (m := two63) in *. assert (0 < m) by reflexivity. clearbody m.
  Z.quot_rem_to_equations.
  destruct (Z.le_gt_cases 0 v).
  - assert (0 <= q) by nia. nia.
  - assert (q <= 0) by nia. nia.
Qed.

Lemma quot_mul_is_Int64 (v d : Z) :
  0 < d -> is_Int64 v -> is_Int64 (Z.quot v d * d).
Proof.
  unfold is_Int64. intros Hd Hv.
  set (m := two63) in *. assert (0 < m) by reflexivity. clearbody m.
  Z.quot_rem_to_equations.
  destruct (Z.le_gt_cases 0 v).
  - assert (0 <= q) by nia. nia.
  - assert (q <= 0) by nia. nia.
Qed.

(** What the seconds box holds after reading back what it wrote. *)
Lemma seconds_write_then_set (v : Timespan) (c : bool) (dst : Box SecondsBox) :
  is_Int64 v ->
  write_then_set SecondsBox (mkSetting v c) dst
  = (Returned tt, mkFrame (mkSetting (Z.quot v SECONDS * SECONDS) true) [] []).
Proof.
  intros Hv. unfold write_then_set.
  cbn [write_of set_of]. unfold SettingSeconds.write, SettingSeconds.set_ReadBuffer.
  unfold bind at 1. cbn [read_value this value writeVarUInt writeBytes ostr istr app].
  unfold bind at 1.
  rewrite <- (app_nil_r (varUInt _)).
  rewrite readVarUInt_written by apply to_UInt64_range.
  unfold SettingSeconds.set_UInt64, SettingSeconds.set.
  rewrite store_run. cbn [istr ostr].
  unfold Timespan_of_seconds, Timespan_totalSeconds.
  rewrite to_Int64_to_UInt64.
  rewrite (to_Int64_small (Z.quot v SECONDS)) by (apply quot_is_Int64; [reflexivity | exact Hv]).
  rewrite (to_Int64_small 0) by (unfold is_Int64, two63; lia).
  rewrite Z.add_0_r.
  rewrite to_Int64_small by (apply quot_mul_is_Int64; [reflexivity | exact Hv]).
  reflexivity.
Qed.

(** What the milliseconds box holds after reading back what it wrote. *)
Lemma milliseconds_write_then_set (v : Timespan) (c : bool) (dst : Box MillisecondsBox) :
  is_Int64 v ->
  write_then_set MillisecondsBox (mkSetting v c) dst
  = (Returned tt,
     mkFrame (mkSetting (Z.quot v MILLISECONDS * MILLISECONDS) true) [] []).
Proof.
  intros Hv. unfold write_then_set.
  cbn [write_of set_of].
  unfold SettingMilliseconds.write, SettingMilliseconds.set_ReadBuffer.
  unfold bind at 1. cbn [read_value this value writeVarUInt writeBytes ostr istr app].
  unfold bind at 1.
  rewrite <- (app_nil_r (varUInt _)).
  rewrite readVarUInt_written by apply to_UInt64_range.
  unfold SettingMilliseconds.set_UInt64, SettingMilliseconds.set.
  rewrite store_run. cbn [istr ostr].
  unfold Timespan_of_microseconds, Timespan_totalMilliseconds.
  rewrite to_UInt64_mul, to_Int64_to_UInt64.
  change 1000 with MILLISECONDS.
  rewrite to_Int64_small by (apply quot_mul_is_Int64; [reflexivity | exact Hv]).
  reflexivity.
Qed.

Lemma aligned_iff (v d : Z) : d <> 0 -> Z.quot v d * d = v <-> Z.rem v d = 0.
Proof. intros Hd. Z.quot_rem_to_equations. lia. Qed.

(** What the float box does with what it wrote: it parses the text again. *)
Lemma float_write_then_set (v : float) (c : bool) (dst : Box FloatBox) :
  Z.of_nat (String.length (toString_float v)) < two64 ->
  write_then_set FloatBox (mkSetting v c) dst
  = match parse_float_text (toString_float v) with
    | Some v' => (Returned tt, mkFrame (mkSetting v' true) [] [])
    | None => (Thrown (cannot_parse "float" (toString_float v)), mkFrame dst [] [])
    end.
Proof.
  intros Hlen. unfold write_then_set.
  cbn [write_of set_of]. unfold SettingFloat.write, SettingFloat.set_ReadBuffer.
  unfold bind at 1. cbn [read_value this value writeBinary writeBytes ostr istr app].
  unfold bind at 1.
  rewrite <- (app_nil_r (stringBinary _)).
  rewrite readBinary_written by exact Hlen.
  unfold SettingFloat.set_String, SettingFloat.set, parse_float, bind, call.
  destruct (parse_float_text (toString_float v)) as [v'|]; reflexivity.
Qed.
Lemma float_equal_nan (x : float) : float_equal x S754_nan = false.
Proof. destruct x as [? | ? | | ? ? ?]; reflexivity. Qed.


Lemma getOverflowMode_without_any (x : string) :
  SettingOverflowMode.getOverflowMode false x = Returned THROW
  \/ SettingOverflowMode.getOverflowMode false x = Returned BREAK
  \/ exists e, SettingOverflowMode.getOverflowMode false x = Thrown e.
Proof.
  unfold SettingOverflowMode.getOverflowMode,
    SettingOverflowMode.getOverflowModeForGroupBy.
  destruct (x =? "throw")%string; [left; reflexivity|].
  destruct (x =? "break")%string; [right; left; reflexivity|].
  destruct (x =? "any")%string; right; right; eexists; reflexivity.
Qed.

Lemma set_String_without_any (x : string) (f f' : Frame (Setting OverflowMode))
    (r : Outcome unit) :
  SettingOverflowMode.set_String false x f = (r, f') ->
  (r = Returned tt /\ (value (this f') = THROW \/ value (this f') = BREAK))
  \/ ((exists e, r = Thrown e) /\ f' = f).
Proof.
  unfold SettingOverflowMode.set_String, SettingOverflowMode.set, bind at 1, call.
  destruct (getOverflowMode_without_any x) as [-> | [-> | [e ->]]].
  - rewrite store_run. intros [= <- <-]. left. split; [reflexivity | left; reflexivity].
  - rewrite store_run. intros [= <- <-]. left. split; [reflexivity | right; reflexivity].
  - intros [= <- <-]. right. split; [exists e; reflexivity | reflexivity].
Qed.

(** C5 (amended): on an overflow-mode box instantiated with
    [enable_mode_any = false], the [set] overloads that take a variant, a
    text or a read buffer never store [ANY]: when such a call returns, the
    box holds [THROW] or [BREAK]; when it throws, the box holds what it held;
    and supplying the name "any" through any of the three throws
    ILLEGAL_OVERFLOW_MODE. *)
Theorem any_is_kept_out_by_text_variant_and_stream
    (c : SetCall (Enumerated (OverflowModeBox false)))
    (f f' : Frame (Box (Enumerated (OverflowModeBox false)))) (r : Outcome unit) :
  from_outside c = true ->
  set_of (Enumerated (OverflowModeBox false)) c f = (r, f') ->
  ((r = Returned tt /\ (value (this f') = THROW \/ value (this f') = BREAK))
   \/ ((exists e, r = Thrown e) /\ this f' = this f))
  /\ (value (this f) <> ANY -> value (this f') <> ANY)
  /\ (c = ByString "any" \/ c = ByField (Field_String "any")
      \/ (c = ByReadBuffer /\ exists rest, istr f = stringBinary "any" ++ rest) ->
      exists e, r = Thrown e /\ code e = ILLEGAL_OVERFLOW_MODE).
Proof.
  intros Hc E.
  assert (Hmain : (r = Returned tt /\ (value (this f') = THROW \/ value (this f') = BREAK))
                  \/ ((exists e, r = Thrown e) /\ this f' = this f)).
  { destruct c as [x | x | x | ]; [discriminate Hc | | | ]; cbn [set_of] in E.
    - unfold SettingOverflowMode.set_Field, bind at 1, call in E.
      revert E. destruct (safeGet_String x) as [s | e]; intros E.
      + apply set_String_without_any in E.
        destruct E as [E | [E ->]]; [left; exact E | right; split; [exact E | reflexivity]].
      + inversion E; subst. right. split; [exists e; reflexivity | reflexivity].
    - apply set_String_without_any in E.
      destruct E as [E | [E ->]]; [left; exact E | right; split; [exact E | reflexivity]].
    - unfold SettingOverflowMode.set_ReadBuffer, bind at 1 in E.
      match type of E with
      | context [let (_, _) := ?m in _] => destruct m as [[s | e] f1] eqn:Er
      end.
      + apply keeps_this_readBinary in Er.
        apply set_String_without_any in E.
        destruct E as [E | [E ->]]; [left; exact E | right; split; [exact E | exact Er]].
      + apply keeps_this_readBinary in Er.
        inversion E; subst. right. split; [exists e; reflexivity | exact Er]. }
  split; [exact Hmain | split].
  - intros Hv. destruct Hmain as [[_ [Hr | Hr]] | [_ Hr]]; rewrite Hr;
      [discriminate | discriminate | exact Hv].
  - intros [-> | [-> | [-> [rest Hrest]]]].
    + inversion E. eexists; split; reflexivity.
    + inversion E. eexists; split; reflexivity.
    + cbn [set_of] in E.
      unfold SettingOverflowMode.set_ReadBuffer, bind at 1 in E.
      destruct f as [b i o]. cbn [istr] in Hrest. subst i.
      rewrite readBinary_written in E by (vm_compute; reflexivity).
      inversion E. eexists; split; reflexivity.
Qed.
(** C6: [write] of a duration box appends one varint, that of the stored
    time span divided, with truncation, by the box's unit: whole seconds for
    the seconds box, whole milliseconds for the milliseconds box.  The bytes
    read back as that count and nothing else, not as the count of
    microseconds held.  A milliseconds box constructed from 1500 holds
    1500000 microseconds, reports [totalMilliseconds () = 1500] and writes
    the varint of 1500, the bytes DC 0B; a seconds box holding 1500999
    microseconds writes the varint of 1. *)
Theorem duration_write_is_in_native_unit :
  (forall (b : Box SecondsBox) i o,
      write_of SecondsBox (mkFrame b i o)
      = (Returned tt,
         mkFrame b i (o ++ varUInt (to_UInt64 (Z.quot (value b) 1000000)))))
  /\ (forall (b : Box MillisecondsBox) i o,
        write_of MillisecondsBox (mkFrame b i o)
        = (Returned tt,
           mkFrame b i (o ++ varUInt (to_UInt64 (Z.quot (value b) 1000)))))
  /\ (forall (v : Timespan) (unit : Z) rest,
        decodeVarUInt 0 0 (varUInt (to_UInt64 (Z.quot v unit)) ++ rest)
        = Some (to_UInt64 (Z.quot v unit), rest))
  /\ (forall (v : Timespan) (unit : Z),
        0 <= v -> is_Int64 v -> 0 < unit ->
        to_UInt64 (Z.quot v unit) = v / unit)
  /\ SettingMilliseconds.totalMilliseconds (SettingMilliseconds.ctor 1500) = 1500
  /\ value (SettingMilliseconds.ctor 1500) = 1500000
  /\ write_of MillisecondsBox (mkFrame (SettingMilliseconds.ctor 1500) [] [])
     = (Returned tt, mkFrame (SettingMilliseconds.ctor 1500) [] (varUInt 1500))
  /\ varUInt 1500 = [xdc; x0b]
  /\ varUInt 1500000 = [xe0; xc6; x5b]
  /\ write_of SecondsBox (mkFrame (mkSetting 1500999 true) [] [])
     = (Returned tt, mkFrame (mkSetting 1500999 true) [] (varUInt 1))
  /\ write_of MillisecondsBox (mkFrame (mkSetting 1500999 true) [] [])
     = (Returned tt, mkFrame (mkSetting 1500999 true) [] (varUInt 1500)).
Proof.
  split; [|split; [|split; [|split]]].
  - intros b i o. reflexivity.
  - intros b i o. reflexivity.
  - intros v unit rest. apply decode_varUInt, to_UInt64_range.
  - intros v unit Hv Hr Hu. unfold to_UInt64.
    rewrite Z.quot_div_nonneg by lia.
    apply Z.mod_small. unfold is_Int64 in Hr.
    assert (0 <= v / unit <= v).
    { split; [apply Z.div_pos; lia|].
      apply Z.div_le_upper_bound; [lia|]. nia. }
    assert (two63 < two64) by reflexivity. lia.
  - repeat split.
Qed.

(** C7: [set (const Field &)] of the float box accepts a variant holding an
    unsigned integer, a signed integer or a double and stores its
    conversion to [float], setting [changed]; a variant of any other type
    (null, string, array) is refused with TYPE_MISMATCH and the box is left
    alone.  The conversion is that of IEEE 754: the nearest binary32 number,
    ties to even, of the integer or of the double, zeros, infinities and NaN
    of a double being kept.  So every integer of magnitude below 2^24 is
    stored as it is, with its sign, and so is every double whose value is a
    binary32 number.  The unsigned integer 5 is stored as the float 5.0,
    that is 10485760 * 2^-21. *)
Theorem float_set_from_variant (x : Field) (f : Frame (Box FloatBox)) :
  set_of FloatBox (ByField x) f
  = match x with
    | Field_UInt64 n =>
        (Returned tt, mkFrame (mkSetting (float_of_integer n) true) (istr f) (ostr f))
    | Field_Int64 n =>
        (Returned tt, mkFrame (mkSetting (float_of_integer n) true) (istr f) (ostr f))
    | Field_Float64 d =>
        (Returned tt, mkFrame (mkSetting (float_of_Float64 d) true) (istr f) (ostr f))
    | _ =>
        (Thrown (mkException
                   ("Bad type of setting. Expected UInt64, Int64 or Float64, got "
                    ++ getTypeName x)%string
                   TYPE_MISMATCH), f)
    end
  /\ kind_of TYPE_MISMATCH = TypeMismatch
  /\ (forall n,
        float_of_integer n
        = match n with
          | 0 => S754_zero false
          | Zpos m => nearest_binary32 false m 0
          | Zneg m => nearest_binary32 true m 0
          end)
  /\ (forall d,
        float_of_Float64 d
        = match d with
          | S754_finite s m e => nearest_binary32 s m e
          | _ => d
          end)
  /\ (forall n,
        0 < Z.abs n < 2 ^ 24 ->
        exists m e,
          float_of_integer n = S754_finite (n <? 0) m e
          /\ e <= 0 /\ Zpos m = Z.abs n * 2 ^ (- e))
  /\ (forall s m e m' e',
        bounded 24 128 m' e' = true ->
        same_dyadic m e m' e' ->
        float_of_Float64 (S754_finite s m e) = S754_finite s m' e')
  /\ float_of_integer 5 = S754_finite false 10485760 (-21)
  /\ 10485760 = 5 * 2 ^ 21
  /\ value (this (snd (set_of FloatBox (ByField (Field_UInt64 5)) f)))
     = S754_finite false 10485760 (-21).
Proof.
  split; [destruct x; reflexivity|].
  split; [reflexivity|].
  split; [exact float_of_integer_nearest|].
  split; [exact float_of_Float64_nearest|].
  split; [exact small_integer_exact|].
  split.
  { intros s m e m' e' Hb Hv. rewrite float_of_Float64_nearest.
    exact (nearest_binary32_exact s m e m' e' Hb Hv). }
  repeat split.
Qed.

Lemma prefix_append (s t : string) : String.prefix s (s ++ t)%string = true.
Proof.
  induction s as [|a s IH]; cbn.
  - destruct t; reflexivity.
  - destruct (ascii_dec a a) as [_ | N]; [exact IH | contradiction N; reflexivity].
Qed.

Lemma contains_append_r (n a b : string) :
  contains n b = true -> contains n (a ++ b)%string = true.
Proof.
  intros Hb. induction a as [|c a IH]; cbn [append contains].
  - exact Hb.
  - rewrite IH. apply orb_true_r.
Qed.

Lemma contains_here (s t : string) : contains s (s ++ t)%string = true.
Proof.
  destruct (s ++ t)%string eqn:E; cbn [contains]; rewrite <- E, prefix_append;
    reflexivity.
Qed.

Lemma contains_quoted (pre s post : string) :
  contains s (pre ++ s ++ post)%string = true.
Proof. apply contains_append_r, contains_here. Qed.

Lemma not_in_cons {A} (x a : A) (l : list A) : ~ In x (a :: l) -> x <> a /\ ~ In x l.
Proof. cbn. intuition congruence. Qed.

(** C8: [set (const String &)] of an enumerated box, given a text that is
    none of the names its lookup function knows, throws an exception of the
    UnknownEnumValue kind and leaves the box alone; the message quotes the
    text and lists every name of the table.  For "bogus" on a load-balancing
    box the code is UNKNOWN_LOAD_BALANCING and the message contains both
    "random" and "nearest_hostname". *)
Theorem unknown_name_is_rejected (e : EnumKind) (s : string)
    (f : Frame (Box (Enumerated e))) :
  ~ In s (names_of e) ->
  exists ex,
    set_of (Enumerated e) (ByString s) f = (Thrown ex, f)
    /\ kind_of (code ex) = UnknownEnumValue
    /\ contains s (message ex) = true
    /\ (forall n, In n (names_of e) -> contains n (message ex) = true)
    /\ (e = LoadBalancingBox -> s = "bogus"%string ->
        code ex = UNKNOWN_LOAD_BALANCING
        /\ contains "bogus" (message ex) = true
        /\ contains "random" (message ex) = true
        /\ contains "nearest_hostname" (message ex) = true).
Proof.
  intros Hs. destruct e as [ | | any]; cbn [names_of] in Hs;
    repeat (apply not_in_cons in Hs; destruct Hs as [?%String.eqb_neq Hs]);
    cbn [set_of].
  - unfold SettingLoadBalancing.set_String, SettingLoadBalancing.getLoadBalancing,
      bind, call.
    repeat match goal with E : (s =? _)%string = false |- _ => rewrite E; clear E end.
    eexists. split; [reflexivity|]. cbn [code message].
    split; [reflexivity|]. split; [apply contains_quoted|]. split.
    + intros n Hn. do 2 apply contains_append_r.
      cbn [names_of In] in Hn.
      destruct Hn as [<- | [<- | []]]; reflexivity.
    + intros _ ->. repeat split.
  - unfold SettingTotalsMode.set_String, SettingTotalsMode.getTotalsMode,
      bind, call.
    repeat match goal with E : (s =? _)%string = false |- _ => rewrite E; clear E end.
    eexists. split; [reflexivity|]. cbn [code message].
    split; [reflexivity|]. split; [apply contains_quoted|]. split.
    + intros n Hn. do 2 apply contains_append_r.
      cbn [names_of In] in Hn.
      destruct Hn as [<- | [<- | [<- | [<- | []]]]]; reflexivity.
    + intros [=].
  - unfold SettingOverflowMode.set_String, SettingOverflowMode.getOverflowMode,
      SettingOverflowMode.getOverflowModeForGroupBy, bind, call.
    repeat match goal with E : (s =? _)%string = false |- _ => rewrite E; clear E end.
    eexists. split; [reflexivity|]. cbn [code message].
    split; [reflexivity|]. split; [apply contains_quoted|]. split.
    + intros n Hn. do 2 apply contains_append_r.
      cbn [names_of In] in Hn.
      destruct Hn as [<- | [<- | [<- | []]]]; reflexivity.
    + intros [=].
Qed.

(** C9 (amended): [toString], and with it [write], of an enumerated box
    whose stored ordinal lies outside the enumerators throws instead of
    indexing the table of names, and neither touches the box nor writes a
    byte.  The code thrown is ARGUMENT_OUT_OF_BOUND, an OutOfRange error,
    on a totals-mode box, and UNKNOWN_OVERFLOW_MODE, the code of an unknown
    name, on an overflow-mode box. *)
Theorem toString_out_of_range_throws (e : EnumKind) (f : Frame (Box (Enumerated e))) :
  in_range e (value (this f)) = false ->
  exists ex,
    toString_of e f = (Thrown ex, f)
    /\ write_of (Enumerated e) f = (Thrown ex, f)
    /\ match e with
       | LoadBalancingBox => True
       | TotalsModeBox =>
           code ex = ARGUMENT_OUT_OF_BOUND /\ kind_of (code ex) = OutOfRange
       | OverflowModeBox _ =>
           code ex = UNKNOWN_OVERFLOW_MODE /\ kind_of (code ex) = UnknownEnumValue
       end.
Proof.
  destruct e as [ | | any]; cbn [in_range toString_of write_of]; intros Hr.
  - unfold SettingLoadBalancing.write, SettingLoadBalancing.toString, bind, read_value.
    plain_types.
    match goal with
    | |- context [if ?c then _ else _] => assert (Hc : c = true)
    end.
    { apply andb_false_iff in Hr.
      apply orb_true_iff. rewrite Z.gtb_ltb, !Z.ltb_lt.
      rewrite !Z.leb_gt in Hr. exact Hr. }
    rewrite Hc. eexists. repeat split.
  - unfold SettingTotalsMode.write, SettingTotalsMode.toString, bind, read_value.
    plain_types.
    apply andb_false_iff in Hr. rewrite !Z.leb_gt in Hr.
    unfold BEFORE_HAVING, AFTER_HAVING_AUTO, AFTER_HAVING_EXCLUSIVE,
      AFTER_HAVING_INCLUSIVE in *.
    destruct (Z.eqb_spec (value (this f)) 0); [lia|].
    destruct (Z.eqb_spec (value (this f)) 2); [lia|].
    destruct (Z.eqb_spec (value (this f)) 1); [lia|].
    destruct (Z.eqb_spec (value (this f)) 3); [lia|].
    eexists. repeat split.
  - unfold SettingOverflowMode.write, SettingOverflowMode.toString, bind, read_value.
    plain_types.
    match goal with
    | |- context [if ?c then _ else _] => assert (Hc : c = true)
    end.
    { apply andb_false_iff in Hr.
      apply orb_true_iff. rewrite Z.gtb_ltb, !Z.ltb_lt.
      rewrite !Z.leb_gt in Hr. exact Hr. }
    rewrite Hc. eexists. repeat split.
Qed.
End Properties.

(** ** Further properties of the members *)

Ltac by_name s :=
  repeat match goal with
         | |- context [(s =? ?n)%string] =>
             destruct (String.eqb_spec s n) as [-> | ?]
         end.

Ltac unfold_lookups :=
  unfold SettingLoadBalancing.set_String, SettingLoadBalancing.getLoadBalancing,
    SettingTotalsMode.set_String, SettingTotalsMode.getTotalsMode,
    SettingOverflowMode.set_String, SettingOverflowMode.getOverflowMode,
    SettingOverflowMode.getOverflowModeForGroupBy, bind, call.

Section Further.
Context `{TextFormat}.

(** X1: [set (const String &)] of an enumerated box returns on exactly the
    names of its table, compared as they are written: no other text is
    accepted, and on an overflow-mode box instantiated with
    [enable_mode_any = false] the name "any" is not accepted either. *)
Theorem text_set_returns_exactly_on_accepted_names (e : EnumKind) (s : string)
    (f : Frame (Box (Enumerated e))) :
  (exists f', set_of (Enumerated e) (ByString s) f = (Returned tt, f'))
  <-> In s (accepted_names e).
Proof.
  destruct e as [ | | [ | ]]; cbn [set_of accepted_names names_of]; split.
  all: try (intros [f' E]; revert E; unfold_lookups; by_name s; intros E;
            try discriminate E; simpl; auto 10).
  all: intros Hin; simpl in Hin;
    repeat (destruct Hin as [<- | Hin]; [eexists; reflexivity | ]);
    destruct Hin.
Qed.

(** X2: after [set (const String &)] of an enumerated box has returned on a
    text, [toString ()] of the box returns that very text, and [write]
    appends the length-prefixed text to the buffer. *)
Theorem toString_after_text_set (e : EnumKind) (s : string)
    (f f' : Frame (Box (Enumerated e))) :
  set_of (Enumerated e) (ByString s) f = (Returned tt, f') ->
  toString_of e f' = (Returned s, f')
  /\ write_of (Enumerated e) f'
     = (Returned tt, mkFrame (this f') (istr f') (ostr f' ++ stringBinary s)).
Proof.
  destruct e as [ | | [ | ]]; cbn [set_of]; unfold_lookups; by_name s;
    intros E; try discriminate E; inversion E; subst f'; split; reflexivity.
Qed.
Lemma in_range_cases (e : EnumKind) (v : ValueOf (Enumerated e)) :
  in_range e v = true ->
  match e return ValueOf (Enumerated e) -> Prop with
  | LoadBalancingBox => fun v => v = RANDOM \/ v = NEAREST_HOSTNAME
  | TotalsModeBox => fun v =>
      v = BEFORE_HAVING \/ v = AFTER_HAVING_INCLUSIVE
      \/ v = AFTER_HAVING_EXCLUSIVE \/ v = AFTER_HAVING_AUTO
  | OverflowModeBox _ => fun v => v = THROW \/ v = BREAK \/ v = ANY
  end v.
Proof.
  destruct e; cbn [in_range]; intros Hr; apply andb_true_iff in Hr;
    rewrite !Z.leb_le in Hr; plain_types;
    unfold RANDOM, NEAREST_HOSTNAME, BEFORE_HAVING, AFTER_HAVING_INCLUSIVE,
      AFTER_HAVING_EXCLUSIVE, AFTER_HAVING_AUTO, THROW, BREAK, ANY in *; lia.
Qed.

(** X3: on an enumerated box whose ordinal is one of the enumerators,
    [toString ()] returns a name of the table and [write] appends it,
    length-prefixed; and [set (const String &)] on that name, where the box
    accepts it, stores the ordinal again. *)
Theorem toString_returns_the_name (e : EnumKind) (f : Frame (Box (Enumerated e))) :
  in_range e (value (this f)) = true ->
  exists n,
    toString_of e f = (Returned n, f)
    /\ In n (names_of e)
    /\ write_of (Enumerated e) f
       = (Returned tt, mkFrame (this f) (istr f) (ostr f ++ stringBinary n))
    /\ (In n (accepted_names e) ->
        forall g, set_of (Enumerated e) (ByString n) g
                  = (Returned tt,
                     mkFrame (mkSetting (value (this f)) true) (istr g) (ostr g))).
Proof.
  intros Hr. apply in_range_cases in Hr.
  destruct f as [[v c] i o]. cbn [this value] in *.
  destruct e as [ | | [ | ]]; cbn [toString_of write_of set_of accepted_names names_of].
  - destruct Hr as [-> | ->]; eexists; repeat split; simpl; auto 10.
  - destruct Hr as [-> | [-> | [-> | ->]]]; eexists; repeat split; simpl; auto 10.
  - destruct Hr as [-> | [-> | ->]]; eexists; repeat split; simpl; auto 10.
  - destruct Hr as [-> | [-> | ->]]; eexists; repeat split; simpl; auto 10.
    intros [E | [E | []]]; discriminate E.
Qed.

Lemma text_set_in_range (e : EnumKind) (s : string)
    (g f' : Frame (Box (Enumerated e))) :
  set_of (Enumerated e) (ByString s) g = (Returned tt, f') ->
  in_range e (value (this f')) = true.
Proof.
  destruct e as [ | | [ | ]]; cbn [set_of]; unfold_lookups; by_name s;
    intros E; try discriminate E; inversion E; reflexivity.
Qed.

(** Every [set] of an enumerated box that starts from a variant or a buffer
    ends in the text [set]. *)
Lemma enum_outside_set_cases (e : EnumKind) (c : SetCall (Enumerated e))
    (f f' : Frame (Box (Enumerated e))) (r : Outcome unit) :
  from_outside c = true ->
  set_of (Enumerated e) c f = (r, f') ->
  ((exists ex, r = Thrown ex) /\ this f' = this f)
  \/ (r = Returned tt
      /\ exists s g, this g = this f
                     /\ set_of (Enumerated e) (ByString s) g = (Returned tt, f')).
Proof.
  intros Hc E.
  destruct r as [[] | ex].
  2:{ left. split; [exists ex; reflexivity | exact (set_of_atomic _ c f ex f' E)]. }
  right. split; [reflexivity|].
  destruct c as [x | x | x | ]; [discriminate Hc | | | ].
  - destruct x as [ | | | | s | ];
      try (destruct e as [ | | ?]; discriminate E).
    exists s, f. split; [reflexivity|].
    destruct e as [ | | ?]; exact E.
  - exists x, f. split; [reflexivity | exact E].
  - destruct (readBinary f) as [[s | ex] f1] eqn:Er.
    + exists s, f1. split; [exact (keeps_this_readBinary f _ f1 Er)|].
      destruct e as [ | | ?]; cbn [set_of] in *;
        unfold SettingLoadBalancing.set_ReadBuffer,
          SettingTotalsMode.set_ReadBuffer,
          SettingOverflowMode.set_ReadBuffer, bind in E;
        plain_types; rewrite Er in E; exact E.
    + destruct e as [ | | ?]; cbn [set_of] in *;
        unfold SettingLoadBalancing.set_ReadBuffer,
          SettingTotalsMode.set_ReadBuffer,
          SettingOverflowMode.set_ReadBuffer, bind in E;
        plain_types; rewrite Er in E; discriminate E.
Qed.

(** X4: a [set] of an enumerated box from a variant, a text or a buffer
    never stores an ordinal outside the enumerators: when it returns, the
    ordinal is in range, and when it throws, an ordinal that was in range
    still is.  After such a [set] has returned, [toString ()] and [write]
    return as well. *)
Theorem outside_set_keeps_ordinal_in_range (e : EnumKind)
    (c : SetCall (Enumerated e)) (f f' : Frame (Box (Enumerated e)))
    (r : Outcome unit) :
  from_outside c = true ->
  set_of (Enumerated e) c f = (r, f') ->
  (r = Returned tt ->
   in_range e (value (this f')) = true
   /\ (exists n, toString_of e f' = (Returned n, f'))
   /\ (exists g, write_of (Enumerated e) f' = (Returned tt, g)))
  /\ (in_range e (value (this f)) = true -> in_range e (value (this f')) = true).
Proof.
  intros Hc E.
  destruct (enum_outside_set_cases e c f f' r Hc E)
    as [[[ex ->] Hsame] | [-> (s & g & _ & Es)]].
  - split; [discriminate | rewrite Hsame; trivial].
  - assert (Hr := text_set_in_range e s g f' Es).
    split; [intros _ | intros _; exact Hr].
    split; [exact Hr|].
    apply in_range_cases in Hr.
    destruct f' as [[v ch] i o]. cbn [this value] in Hr.
    destruct e as [ | | ?]; cbn [toString_of write_of].
    + destruct Hr as [-> | ->]; split; eexists; reflexivity.
    + destruct Hr as [-> | [-> | [-> | ->]]]; split; eexists; reflexivity.
    + destruct Hr as [-> | [-> | ->]]; split; eexists; reflexivity.
Qed.
Ltac run_statements :=
  unfold bind, call, ret, throw, readBinary, readVarUInt, bind, writeBytes,
    assign_value, assign_changed, read_value, parse_UInt64, parse_float;
  cbn [istr ostr this value changed fst snd].

Ltac split_scrutinee :=
  repeat match goal with
         | |- context [match ?x with _ => _ end] =>
             lazymatch x with
             | context [match _ with _ => _ end] => fail
             | _ => destruct x; cbn [istr ostr this value changed fst snd]
             end
         end.

(** X5: what a [set] call does is decided by its argument and by the bytes of
    the buffer alone, never by what the box held: run on two boxes of the
    same kind it returns or throws alike and consumes the same bytes, leaves
    the write buffer alone, and when it returns both boxes are equal, with
    [changed] set. *)
Theorem set_forgets_the_box (k : Kind) (c : SetCall k) (b1 b2 : Box k)
    (i : ReadBuffer) (o : WriteBuffer) :
  fst (set_of k c (mkFrame b1 i o)) = fst (set_of k c (mkFrame b2 i o))
  /\ istr (snd (set_of k c (mkFrame b1 i o)))
     = istr (snd (set_of k c (mkFrame b2 i o)))
  /\ ostr (snd (set_of k c (mkFrame b1 i o))) = o
  /\ (forall a,
        fst (set_of k c (mkFrame b1 i o)) = Returned a ->
        this (snd (set_of k c (mkFrame b1 i o)))
        = this (snd (set_of k c (mkFrame b2 i o)))
        /\ changed (this (snd (set_of k c (mkFrame b1 i o)))) = true).
Proof.
  each_set_call k c; unfold_members; run_statements; split_scrutinee;
    repeat split; try reflexivity; intros; discriminate.
Qed.
Lemma varUInt_not_empty (x : UInt64) : varUInt x <> [].
Proof.
  unfold varUInt. rewrite encodeVarUInt_step.
  destruct (x >? 0x7F); discriminate.
Qed.

Lemma stringBinary_not_empty (s : string) : stringBinary s <> [].
Proof.
  unfold stringBinary. intros E. apply app_eq_nil in E.
  exact (varUInt_not_empty _ (proj1 E)).
Qed.

(** X6: [write] touches neither the box nor the bytes still to be read, and
    never overwrites what the buffer already holds: when it returns it has
    appended at least one byte after the old contents, and when it throws it
    has appended nothing. *)
Theorem write_only_appends (k : Kind) (f f' : Frame (Box k)) (r : Outcome unit) :
  write_of k f = (r, f') ->
  this f' = this f
  /\ istr f' = istr f
  /\ (r = Returned tt -> exists bs, bs <> [] /\ ostr f' = ostr f ++ bs)
  /\ (forall e, r = Thrown e -> ostr f' = ostr f).
Proof.
  destruct f as [[v c] i o].
  destruct k as [ | | | | [ | | ?]]; cbn [write_of]; unfold_members;
    run_statements; split_scrutinee; intros E; inversion E; subst;
    cbn [this istr ostr]; repeat split; try reflexivity; try discriminate;
    intros _; eexists; (split; [|reflexivity]);
    first [apply varUInt_not_empty | apply stringBinary_not_empty].
Qed.

Lemma perform_same_or_marked (k : Kind) (o : Op k) (f f' : Frame (Box k))
    (r : Outcome unit) :
  perform k o f = (r, f') -> this f' = this f \/ changed (this f') = true.
Proof.
  destruct o as [c | x | ]; cbn [perform]; intros E.
  - destruct r as [a | e].
    + right. exact (set_of_marks k c f a f' E).
    + left. exact (set_of_atomic k c f e f' E).
  - right. rewrite assign_of_store in E. inversion E. reflexivity.
  - left. exact (write_of_keeps_this k f r f' E).
Qed.

Lemma after_steps_stays_changed (k : Kind) (steps : list (Step k)) :
  forall b, changed b = true -> changed (after_steps k steps b) = true.
Proof.
  induction steps as [|s steps IH]; intros b Hb; [exact Hb|].
  apply IH. unfold after_step.
  exact (perform_never_clears k (step_op s) (mkFrame b (step_input s) [])
           _ _ (surjective_pairing _) Hb).
Qed.

(** X7: a box whose flag is still [false] is the box it was at the start.
    Whatever members a caller runs on a box, on whatever buffers, catching
    what they throw: if [changed] is [false] at the end, no member has
    altered the box, which still holds the value it was constructed with. *)
Theorem unflagged_box_is_untouched (k : Kind) (steps : list (Step k)) (b : Box k) :
  changed (after_steps k steps b) = false ->
  after_steps k steps b = b.
Proof.
  revert b. induction steps as [|s steps IH]; intros b Hc; [reflexivity|].
  change (after_steps k (s :: steps) b)
    with (after_steps k steps (after_step k b s)) in *.
  assert (after_step k b s = b \/ changed (after_step k b s) = true) as [Hs | Hs].
  { unfold after_step.
    exact (perform_same_or_marked k (step_op s) (mkFrame b (step_input s) [])
             _ _ (surjective_pairing _)). }
  - rewrite Hs in *. exact (IH b Hc).
  - rewrite (after_steps_stays_changed k steps _ Hs) in Hc. discriminate Hc.
Qed.

Lemma to_Int64_high (y : Z) : two63 <= y < two64 -> to_Int64 y = y - two64.
Proof.
  intros Hy. unfold to_Int64.
  rewrite <- (Z.mod_unique (y + two63) two64 1 (y - two63)).
  - change two64 with (two63 + two63). lia.
  - left. change two64 with (two63 + two63) in *. lia.
  - change two64 with (two63 + two63). lia.
Qed.

(** X8: the count handed to a duration box is held without loss as long as
    its microseconds fit in 63 bits.  A seconds box constructed from, or set
    to, a count of at most 9223372036854 holds that many million
    microseconds and reports the count as [totalSeconds ()]; a milliseconds
    box does so up to 9223372036854775.  Past that bound the product of
    the milliseconds box wraps: up to 18446744073709551 the box holds the
    product less 2^64, a negative duration. *)
Theorem duration_counts_within_bounds :
  (forall (x : UInt64) (f : Frame (Box SecondsBox)),
      0 <= x <= 9223372036854 ->
      set_of SecondsBox (@ByNative SecondsBox (inr x)) f
      = (Returned tt, mkFrame (mkSetting (x * 1000000) true) (istr f) (ostr f))
      /\ SettingSeconds.ctor x = mkSetting (x * 1000000) false
      /\ SettingSeconds.totalSeconds (SettingSeconds.ctor x) = x)
  /\ (forall (x : UInt64) (f : Frame (Box MillisecondsBox)),
        0 <= x <= 9223372036854775 ->
        set_of MillisecondsBox (@ByNative MillisecondsBox (inr x)) f
        = (Returned tt, mkFrame (mkSetting (x * 1000) true) (istr f) (ostr f))
        /\ SettingMilliseconds.ctor x = mkSetting (x * 1000) false
        /\ SettingMilliseconds.totalMilliseconds (SettingMilliseconds.ctor x) = x)
  /\ (forall (x : UInt64),
        9223372036854775 < x <= 18446744073709551 ->
        value (SettingMilliseconds.ctor x) = x * 1000 - two64
        /\ value (SettingMilliseconds.ctor x) < 0).
Proof.
  split; [|split].
  - intros x f Hx.
    assert (Hv : Timespan_of_seconds x 0 = x * 1000000).
    { unfold Timespan_of_seconds, SECONDS.
      rewrite (to_Int64_small x), (to_Int64_small 0), Z.add_0_r, to_Int64_small;
        unfold is_Int64, two63; lia. }
    cbn [set_of]. unfold SettingSeconds.set_UInt64, SettingSeconds.set,
      SettingSeconds.ctor, SettingSeconds.totalSeconds, construct.
    rewrite store_run, Hv. cbn [value]. repeat split.
    unfold Timespan_totalSeconds, SECONDS. apply Z.quot_mul. discriminate.
  - intros x f Hx.
    assert (Hv : Timespan_of_microseconds (to_UInt64 (x * 1000)) = x * 1000).
    { unfold Timespan_of_microseconds, to_UInt64.
      rewrite Z.mod_small by (unfold two64; lia).
      apply to_Int64_small. unfold is_Int64, two63; lia. }
    cbn [set_of]. unfold SettingMilliseconds.set_UInt64, SettingMilliseconds.set,
      SettingMilliseconds.ctor, SettingMilliseconds.totalMilliseconds, construct.
    rewrite store_run, Hv. cbn [value]. repeat split.
    unfold Timespan_totalMilliseconds, MILLISECONDS. apply Z.quot_mul. discriminate.
  - intros x Hx.
    assert (Hv : Timespan_of_microseconds (to_UInt64 (x * 1000)) = x * 1000 - two64).
    { unfold Timespan_of_microseconds, to_UInt64.
      rewrite Z.mod_small by (unfold two64; lia).
      apply to_Int64_high. unfold two63, two64; lia. }
    unfold SettingMilliseconds.ctor, construct.
    cbn [value]. rewrite Hv. split; [reflexivity|].
    unfold two64. lia.
Qed.
Lemma stream_set_UInt64 (x : UInt64) (b : Box UnsignedIntegerBox)
    (rest : list byte) (o : WriteBuffer) :
  is_UInt64 x ->
  set_of UnsignedIntegerBox ByReadBuffer (mkFrame b (varUInt x ++ rest) o)
  = set_of UnsignedIntegerBox (@ByNative UnsignedIntegerBox x) (mkFrame b rest o).
Proof.
  intros Hx. cbn [set_of]. unfold SettingUInt64.set_ReadBuffer, bind at 1.
  rewrite readVarUInt_written by exact Hx. reflexivity.
Qed.

Lemma stream_set_seconds (x : UInt64) (b : Box SecondsBox)
    (rest : list byte) (o : WriteBuffer) :
  is_UInt64 x ->
  set_of SecondsBox ByReadBuffer (mkFrame b (varUInt x ++ rest) o)
  = set_of SecondsBox (@ByNative SecondsBox (inr x)) (mkFrame b rest o).
Proof.
  intros Hx. cbn [set_of]. unfold SettingSeconds.set_ReadBuffer, bind at 1.
  rewrite readVarUInt_written by exact Hx. reflexivity.
Qed.

Lemma stream_set_milliseconds (x : UInt64) (b : Box MillisecondsBox)
    (rest : list byte) (o : WriteBuffer) :
  is_UInt64 x ->
  set_of MillisecondsBox ByReadBuffer (mkFrame b (varUInt x ++ rest) o)
  = set_of MillisecondsBox (@ByNative MillisecondsBox (inr x)) (mkFrame b rest o).
Proof.
  intros Hx. cbn [set_of]. unfold SettingMilliseconds.set_ReadBuffer, bind at 1.
  rewrite readVarUInt_written by exact Hx. reflexivity.
Qed.

Lemma stream_set_float (s : string) (b : Box FloatBox)
    (rest : list byte) (o : WriteBuffer) :
  Z.of_nat (String.length s) < two64 ->
  set_of FloatBox ByReadBuffer (mkFrame b (stringBinary s ++ rest) o)
  = set_of FloatBox (ByString s) (mkFrame b rest o).
Proof.
  intros Hs. cbn [set_of]. unfold SettingFloat.set_ReadBuffer, bind at 1.
  rewrite readBinary_written by exact Hs. reflexivity.
Qed.

Lemma stream_set_enum (e : EnumKind) (s : string) (b : Box (Enumerated e))
    (rest : list byte) (o : WriteBuffer) :
  Z.of_nat (String.length s) < two64 ->
  set_of (Enumerated e) ByReadBuffer (mkFrame b (stringBinary s ++ rest) o)
  = set_of (Enumerated e) (ByString s) (mkFrame b rest o).
Proof.
  intros Hs. destruct e as [ | | ?]; cbn [set_of];
    unfold SettingLoadBalancing.set_ReadBuffer, SettingTotalsMode.set_ReadBuffer,
      SettingOverflowMode.set_ReadBuffer, bind at 1;
    plain_types; rewrite readBinary_written by exact Hs; reflexivity.
Qed.

(** X9: [set (ReadBuffer &)] is the native or the text [set] applied to what
    the buffer starts with, and it consumes that and no more: on the varint
    of a count followed by other bytes, the integer and the duration boxes
    do what [set (UInt64)] does on the count and leave the other bytes; on a
    length-prefixed text followed by other bytes, the float and the
    enumerated boxes do what [set (const String &)] does on the text and
    leave the other bytes. *)
Theorem stream_set_decodes_then_sets :
  (forall x (b : Box UnsignedIntegerBox) rest o,
      is_UInt64 x ->
      set_of UnsignedIntegerBox ByReadBuffer (mkFrame b (varUInt x ++ rest) o)
      = set_of UnsignedIntegerBox (@ByNative UnsignedIntegerBox x) (mkFrame b rest o))
  /\ (forall x (b : Box SecondsBox) rest o,
        is_UInt64 x ->
        set_of SecondsBox ByReadBuffer (mkFrame b (varUInt x ++ rest) o)
        = set_of SecondsBox (@ByNative SecondsBox (inr x)) (mkFrame b rest o))
  /\ (forall x (b : Box MillisecondsBox) rest o,
        is_UInt64 x ->
        set_of MillisecondsBox ByReadBuffer (mkFrame b (varUInt x ++ rest) o)
        = set_of MillisecondsBox (@ByNative MillisecondsBox (inr x))
            (mkFrame b rest o))
  /\ (forall s (b : Box FloatBox) rest o,
        Z.of_nat (String.length s) < two64 ->
        set_of FloatBox ByReadBuffer (mkFrame b (stringBinary s ++ rest) o)
        = set_of FloatBox (ByString s) (mkFrame b rest o))
  /\ (forall e s (b : Box (Enumerated e)) rest o,
        Z.of_nat (String.length s) < two64 ->
        set_of (Enumerated e) ByReadBuffer (mkFrame b (stringBinary s ++ rest) o)
        = set_of (Enumerated e) (ByString s) (mkFrame b rest o)).
Proof.
  split; [exact stream_set_UInt64|].
  split; [exact stream_set_seconds|].
  split; [exact stream_set_milliseconds|].
  split; [exact stream_set_float | exact stream_set_enum].
Qed.

(** X10: [set (const Field &)] of a box other than the float box takes one
    type of variant: an unsigned integer for the integer and duration
    boxes, on which it does what [set (UInt64)] does, and a string for the
    enumerated boxes, on which it does what [set (const String &)] does.  A
    variant of a type the box does not take, the float box included, makes
    it throw with box and buffers as they were. *)
Theorem variant_set_unwraps :
  (forall x f,
      set_of UnsignedIntegerBox (ByField (Field_UInt64 x)) f
      = set_of UnsignedIntegerBox (@ByNative UnsignedIntegerBox x) f)
  /\ (forall x f,
        set_of SecondsBox (ByField (Field_UInt64 x)) f
        = set_of SecondsBox (@ByNative SecondsBox (inr x)) f)
  /\ (forall x f,
        set_of MillisecondsBox (ByField (Field_UInt64 x)) f
        = set_of MillisecondsBox (@ByNative MillisecondsBox (inr x)) f)
  /\ (forall e s f,
        set_of (Enumerated e) (ByField (Field_String s)) f
        = set_of (Enumerated e) (ByString s) f)
  /\ (forall k x f,
        accepts_variant k (getType x) = false ->
        exists ex, set_of k (ByField x) f = (Thrown ex, f)).
Proof.
  repeat split.
  - intros [ | | ?] s f; reflexivity.
  - intros k x f Hx.
    destruct k as [ | | | | [ | | ?]]; destruct x; try discriminate Hx;
      eexists; reflexivity.
Qed.
Lemma quot_mul_unit (v d : Z) : d <> 0 -> Z.quot v d * d = v - Z.rem v d.
Proof. intros Hd. Z.quot_rem_to_equations. lia. Qed.

Lemma truncation_bounds (v d : Z) :
  0 < d -> Z.abs (v - Z.rem v d) <= Z.abs v /\ Z.abs (v - (v - Z.rem v d)) < d.
Proof.
  intros Hd. Z.quot_rem_to_equations.
  destruct (Z.le_gt_cases 0 v).
  - assert (0 <= q) by nia. split; [nia | lia].
  - assert (q <= 0) by nia. split; [nia | lia].
Qed.

(** X11: what a duration box loses on the way through [write] and
    [set (ReadBuffer &)] is the remainder of the division by its unit and
    nothing else: the value read back is the value written less that
    remainder, so it is no further from zero than the original and less than
    one unit away from it, and writing and reading it once more gives it
    back unchanged. *)
Theorem duration_round_trip_truncates_once :
  (forall (v : Timespan) c (dst : Box SecondsBox),
      is_Int64 v ->
      write_then_set SecondsBox (mkSetting v c) dst
      = (Returned tt, mkFrame (mkSetting (v - Z.rem v SECONDS) true) [] [])
      /\ Z.abs (v - Z.rem v SECONDS) <= Z.abs v
      /\ Z.abs (v - (v - Z.rem v SECONDS)) < SECONDS
      /\ forall c' dst',
          write_then_set SecondsBox (mkSetting (v - Z.rem v SECONDS) c') dst'
          = (Returned tt, mkFrame (mkSetting (v - Z.rem v SECONDS) true) [] []))
  /\ (forall (v : Timespan) c (dst : Box MillisecondsBox),
        is_Int64 v ->
        write_then_set MillisecondsBox (mkSetting v c) dst
        = (Returned tt, mkFrame (mkSetting (v - Z.rem v MILLISECONDS) true) [] [])
        /\ Z.abs (v - Z.rem v MILLISECONDS) <= Z.abs v
        /\ Z.abs (v - (v - Z.rem v MILLISECONDS)) < MILLISECONDS
        /\ forall c' dst',
            write_then_set MillisecondsBox
              (mkSetting (v - Z.rem v MILLISECONDS) c') dst'
            = (Returned tt,
               mkFrame (mkSetting (v - Z.rem v MILLISECONDS) true) [] [])).
Proof.
  split; intros v c dst Hv.
  - assert (Hq := quot_mul_unit v SECONDS ltac:(discriminate)).
    assert (Hi := quot_mul_is_Int64 v SECONDS eq_refl Hv).
    destruct (truncation_bounds v SECONDS eq_refl) as [Ha Hb].
    rewrite seconds_write_then_set by exact Hv. rewrite Hq in *.
    repeat split; [exact Ha | exact Hb |].
    intros c' dst'. rewrite seconds_write_then_set by exact Hi.
    rewrite <- Hq, Z.quot_mul by discriminate. reflexivity.
  - assert (Hq := quot_mul_unit v MILLISECONDS ltac:(discriminate)).
    assert (Hi := quot_mul_is_Int64 v MILLISECONDS eq_refl Hv).
    destruct (truncation_bounds v MILLISECONDS eq_refl) as [Ha Hb].
    rewrite milliseconds_write_then_set by exact Hv. rewrite Hq in *.
    repeat split; [exact Ha | exact Hb |].
    intros c' dst'. rewrite milliseconds_write_then_set by exact Hi.
    rewrite <- Hq, Z.quot_mul by discriminate. reflexivity.
Qed.

(** X12: the bytes a seconds box writes carry a bare count, and the box that
    reads them gives the count its own unit: read by a milliseconds box,
    the whole seconds of the duration come back as that many milliseconds,
    a shorter duration as soon as there was one whole second; read by an
    unsigned-integer box they come back as the number of whole seconds. *)
Theorem seconds_wire_read_by_other_boxes (v : Timespan) (c : bool)
    (dst : Box MillisecondsBox) (dst' : Box UnsignedIntegerBox) :
  is_Int64 v ->
  write_then_read SecondsBox MillisecondsBox (mkSetting v c) dst
  = (Returned tt,
     mkFrame (mkSetting (Z.quot v SECONDS * MILLISECONDS) true) [] [])
  /\ (SECONDS <= v -> Z.quot v SECONDS * MILLISECONDS < v)
  /\ write_then_read SecondsBox UnsignedIntegerBox (mkSetting v c) dst'
     = (Returned tt,
        mkFrame (mkSetting (to_UInt64 (Z.quot v SECONDS)) true) [] []).
Proof.
  intros Hv.
  assert (Hq := quot_mul_is_Int64 v SECONDS eq_refl Hv).
  assert (Hm : is_Int64 (Z.quot v SECONDS * MILLISECONDS)).
  { unfold is_Int64, SECONDS, MILLISECONDS in *.
    set (m := two63) in *. assert (0 < m) by reflexivity. clearbody m. lia. }
  change (write_then_read SecondsBox MillisecondsBox (mkSetting v c) dst)
    with (set_of MillisecondsBox ByReadBuffer
            (mkFrame dst (varUInt (to_UInt64 (Timespan_totalSeconds v))) [])).
  change (write_then_read SecondsBox UnsignedIntegerBox (mkSetting v c) dst')
    with (set_of UnsignedIntegerBox ByReadBuffer
            (mkFrame dst' (varUInt (to_UInt64 (Timespan_totalSeconds v))) [])).
  split; [|split].
  - rewrite <- (app_nil_r (varUInt _)).
    rewrite stream_set_milliseconds by apply to_UInt64_range.
    cbn [set_of]. unfold SettingMilliseconds.set_UInt64, SettingMilliseconds.set.
    rewrite store_run. cbn [istr ostr].
    unfold Timespan_of_microseconds, Timespan_totalSeconds.
    rewrite to_UInt64_mul, to_Int64_to_UInt64.
    change 1000 with MILLISECONDS. rewrite to_Int64_small by exact Hm.
    reflexivity.
  - unfold SECONDS, MILLISECONDS. intros Hs. Z.quot_rem_to_equations. lia.
  - rewrite <- (app_nil_r (varUInt _)).
    rewrite stream_set_UInt64 by apply to_UInt64_range.
    reflexivity.
Qed.
End Further.

(** ** The statements at concrete inputs *)



(** The flag after a constructor, after a text [set], after a failing [set] on
    a changed box and after a throwing [toString]. *)
Lemma changed_flag_discipline_witness :
  changed (ctor_of UnsignedIntegerBox 7) = false
  /\ changed (this (snd (set_of (H := decimal_text) UnsignedIntegerBox (ByString "7")
                          (mkFrame (ctor_of UnsignedIntegerBox 7) [] [])))) = true
  /\ changed (this (snd (perform (H := decimal_text) (Enumerated LoadBalancingBox)
                          (OpSet _ (ByString "bogus"))
                          (mkFrame (mkSetting RANDOM true) [] [])))) = true
  /\ changed (this (snd (toString_of (OverflowModeBox false)
                          (mkFrame (mkSetting 7 true) [] [])))) = true.
Proof.
  destruct (@changed_flag_discipline decimal_text)
    as (HU & _ & _ & _ & Hset & _ & Hop & Hstr).
  split; [apply HU|].
  split.
  - exact (Hset UnsignedIntegerBox (ByString "7")
             (mkFrame (ctor_of UnsignedIntegerBox 7) [] []) tt _ eq_refl).
  - split.
    + exact (Hop (Enumerated LoadBalancingBox) (OpSet _ (ByString "bogus"))
               (mkFrame (mkSetting RANDOM true) [] []) _ _ eq_refl eq_refl).
    + exact (Hstr (OverflowModeBox false) (mkFrame (mkSetting 7 true) [] [])
               _ _ eq_refl eq_refl).
Defined.

(** A seconds box constructed from 5 and given the text "1x". *)
Lemma failing_set_is_all_or_nothing_witness :
  value (this (snd (set_of (H := decimal_text) SecondsBox (ByString "1x")
                     (mkFrame (SettingSeconds.ctor 5) [] [])))) = 5000000
  /\ changed (this (snd (set_of (H := decimal_text) SecondsBox (ByString "1x")
                          (mkFrame (SettingSeconds.ctor 5) [] [])))) = false.
Proof.
  exact (failing_set_is_all_or_nothing (H := decimal_text) SecondsBox (ByString "1x")
           (mkFrame (SettingSeconds.ctor 5) [] [])
           (mkFrame (SettingSeconds.ctor 5) [] [])
           (cannot_parse "UInt64" "1x") eq_refl).
Defined.

(** C5, counterexample: the native [set] of an overflow-mode box
    instantiated with [enable_mode_any = false] returns and stores [ANY]. *)
Lemma native_set_stores_any :
  set_of (H := decimal_text) (Enumerated (OverflowModeBox false))
    (@ByNative (Enumerated (OverflowModeBox false)) ANY)
    (mkFrame SettingOverflowMode.default [] [])
  = (Returned tt, mkFrame (mkSetting ANY true) [] [])
  /\ value (mkSetting ANY true) = ANY.
Proof. split; reflexivity. Qed.

(** The name "any" arriving in a read buffer, and "break" in a variant. *)
Lemma any_is_kept_out_witness :
  (exists e,
      fst (set_of (H := decimal_text) (Enumerated (OverflowModeBox false)) ByReadBuffer
             (mkFrame SettingOverflowMode.default (stringBinary "any") []))
      = Thrown e /\ code e = ILLEGAL_OVERFLOW_MODE)
  /\ value (this (snd (set_of (H := decimal_text) (Enumerated (OverflowModeBox false))
                         (ByField (Field_String "break"))
                         (mkFrame SettingOverflowMode.default [] [])))) <> ANY.
Proof.
  split.
  - destruct (any_is_kept_out_by_text_variant_and_stream (H := decimal_text)
                ByReadBuffer
                (mkFrame SettingOverflowMode.default (stringBinary "any") [])
                _ _ eq_refl eq_refl) as (_ & _ & Hany).
    destruct Hany as (e & He & Hc).
    + right; right. split; [reflexivity|]. exists []. reflexivity.
    + exists e. split; [exact He | exact Hc].
  - destruct (any_is_kept_out_by_text_variant_and_stream (H := decimal_text)
                (ByField (Field_String "break"))
                (mkFrame SettingOverflowMode.default [] [])
                _ _ eq_refl eq_refl) as (_ & Hkeep & _).
    apply Hkeep. discriminate.
Defined.

(** 1500999 microseconds are 1 whole second and 1500 whole milliseconds. *)
Lemma duration_write_is_in_native_unit_witness :
  to_UInt64 (Z.quot 1500999 1000000) = 1500999 / 1000000
  /\ to_UInt64 (Z.quot 1500999 1000) = 1500.
Proof.
  destruct (@duration_write_is_in_native_unit decimal_text)
    as (_ & _ & _ & Hfloor & _).
  split.
  - apply Hfloor; [lia | unfold is_Int64; vm_compute; split; [discriminate | reflexivity] | lia].
  - rewrite Hfloor;
      [reflexivity | lia
      | unfold is_Int64; vm_compute; split; [discriminate | reflexivity] | lia].
Defined.

(** Minus three, and the double one half. *)
Lemma float_set_from_variant_witness :
  (exists m e,
      float_of_integer (-3) = S754_finite true m e
      /\ e <= 0 /\ Zpos m = 3 * 2 ^ (- e))
  /\ float_of_Float64 (S754_finite false 4503599627370496 (-53))
     = S754_finite false 8388608 (-24).
Proof.
  destruct (float_set_from_variant (H := decimal_text) Field_Null
              (mkFrame SettingFloat.default [] []))
    as (_ & _ & _ & _ & Hsmall & Hexact & _).
  split.
  - apply (Hsmall (-3)). vm_compute. split; reflexivity.
  - apply Hexact; vm_compute; reflexivity.
Defined.

(** [set ("bogus")] on a load-balancing box. *)
Lemma unknown_name_is_rejected_witness :
  exists ex,
    set_of (H := decimal_text) (Enumerated LoadBalancingBox) (ByString "bogus")
      (mkFrame (SettingLoadBalancing.ctor RANDOM) [] [])
    = (Thrown ex, mkFrame (SettingLoadBalancing.ctor RANDOM) [] [])
    /\ code ex = UNKNOWN_LOAD_BALANCING
    /\ contains "random" (message ex) = true
    /\ contains "nearest_hostname" (message ex) = true.
Proof.
  destruct (unknown_name_is_rejected (H := decimal_text) LoadBalancingBox "bogus"
              (mkFrame (SettingLoadBalancing.ctor RANDOM) [] []))
    as (ex & Hset & _ & _ & _ & Hbogus).
  - intros [E | [E | []]]; discriminate E.
  - destruct (Hbogus eq_refl eq_refl) as (Hcode & _ & Hr & Hn).
    exists ex. repeat split; assumption.
Defined.

(** C9, counterexample: [toString] of an overflow-mode box holding the
    ordinal 3 throws UNKNOWN_OVERFLOW_MODE, which is not an OutOfRange
    error. *)
Lemma overflow_toString_out_of_range_code :
  toString_of (OverflowModeBox true) (mkFrame (mkSetting 3 false) [] [])
  = (Thrown (mkException "Unknown overflow mode" UNKNOWN_OVERFLOW_MODE),
     mkFrame (mkSetting 3 false) [] [])
  /\ kind_of UNKNOWN_OVERFLOW_MODE <> OutOfRange.
Proof. split; [reflexivity | discriminate]. Qed.

(** [write] of a totals-mode box holding the ordinal 4. *)
Lemma toString_out_of_range_throws_witness :
  exists ex,
    write_of (H := decimal_text) (Enumerated TotalsModeBox)
      (mkFrame (mkSetting 4 true) [] [])
    = (Thrown ex, mkFrame (mkSetting 4 true) [] [])
    /\ code ex = ARGUMENT_OUT_OF_BOUND.
Proof.
  destruct (toString_out_of_range_throws (H := decimal_text) TotalsModeBox
              (mkFrame (mkSetting 4 true) [] []) eq_refl)
    as (ex & _ & Hw & Hc & _).
  exists ex. split; assumption.
Defined.

(** "after_having_auto" is accepted by a totals-mode box; "Any", with a
    capital, is not accepted by an overflow-mode box that forbids "any". *)
Lemma text_set_returns_exactly_on_accepted_names_witness :
  (exists f',
      set_of (H := decimal_text) (Enumerated TotalsModeBox)
        (ByString "after_having_auto")
        (mkFrame (SettingTotalsMode.ctor BEFORE_HAVING) [] [])
      = (Returned tt, f'))
  /\ ~ (exists f',
          set_of (H := decimal_text) (Enumerated (OverflowModeBox false))
            (ByString "Any") (mkFrame SettingOverflowMode.default [] [])
          = (Returned tt, f')).
Proof.
  split.
  - apply (text_set_returns_exactly_on_accepted_names (H := decimal_text)
             TotalsModeBox "after_having_auto").
    simpl. auto.
  - intros R.
    apply (text_set_returns_exactly_on_accepted_names (H := decimal_text)
             (OverflowModeBox false) "Any") in R.
    simpl in R. destruct R as [E | [E | []]]; discriminate E.
Defined.

(** [set ("nearest_hostname")] and then [toString ()]. *)
Lemma toString_after_text_set_witness :
  toString_of LoadBalancingBox (mkFrame (mkSetting NEAREST_HOSTNAME true) [] [])
  = (Returned "nearest_hostname"%string,
     mkFrame (mkSetting NEAREST_HOSTNAME true) [] [])
  /\ write_of (H := decimal_text) (Enumerated LoadBalancingBox)
       (mkFrame (mkSetting NEAREST_HOSTNAME true) [] [])
     = (Returned tt,
        mkFrame (mkSetting NEAREST_HOSTNAME true) []
          ([] ++ stringBinary "nearest_hostname")).
Proof.
  exact (toString_after_text_set (H := decimal_text) LoadBalancingBox
           "nearest_hostname"
           (mkFrame (SettingLoadBalancing.ctor RANDOM) [] [])
           (mkFrame (mkSetting NEAREST_HOSTNAME true) [] []) eq_refl).
Defined.

(** [toString ()] of a totals-mode box holding [AFTER_HAVING_EXCLUSIVE]. *)
Lemma toString_returns_the_name_witness :
  exists n,
    toString_of TotalsModeBox (mkFrame (mkSetting AFTER_HAVING_EXCLUSIVE false) [] [])
    = (Returned n, mkFrame (mkSetting AFTER_HAVING_EXCLUSIVE false) [] [])
    /\ In n (names_of TotalsModeBox).
Proof.
  destruct (toString_returns_the_name (H := decimal_text) TotalsModeBox
              (mkFrame (mkSetting AFTER_HAVING_EXCLUSIVE false) [] []) eq_refl)
    as (n & Ht & Hin & _).
  exists n. split; assumption.
Defined.

(** A box holding the ordinal 7 is set from a variant holding "break". *)
Lemma outside_set_keeps_ordinal_in_range_witness :
  in_range (OverflowModeBox false)
    (value (this (snd (set_of (H := decimal_text)
                         (Enumerated (OverflowModeBox false))
                         (ByField (Field_String "break"))
                         (mkFrame (mkSetting 7 false) [] [])))))
  = true.
Proof.
  exact (proj1 (proj1 (outside_set_keeps_ordinal_in_range (H := decimal_text)
                         (OverflowModeBox false)
                         (ByField (Field_String "break"))
                         (mkFrame (mkSetting 7 false) [] []) _ _
                         eq_refl eq_refl) eq_refl)).
Defined.

(** The text "42" set on two integer boxes that held different values. *)
Lemma set_forgets_the_box_witness :
  this (snd (set_of (H := decimal_text) UnsignedIntegerBox (ByString "42")
               (mkFrame (mkSetting 1 false) [] [])))
  = this (snd (set_of (H := decimal_text) UnsignedIntegerBox (ByString "42")
                 (mkFrame (mkSetting 2 true) [] []))).
Proof.
  destruct (set_forgets_the_box (H := decimal_text) UnsignedIntegerBox
              (ByString "42") (mkSetting 1 false) (mkSetting 2 true) [] [])
    as (_ & _ & _ & Hret).
  exact (proj1 (Hret tt eq_refl)).
Defined.

(** [write] of an integer box into a buffer that holds a byte already. *)
Lemma write_only_appends_witness :
  exists bs,
    bs <> []
    /\ ostr (snd (write_of (H := decimal_text) UnsignedIntegerBox
                    (mkFrame (SettingUInt64.ctor 300) [x02] [x01])))
       = [x01] ++ bs.
Proof.
  destruct (write_only_appends (H := decimal_text) UnsignedIntegerBox
              (mkFrame (SettingUInt64.ctor 300) [x02] [x01]) _ _ eq_refl)
    as (_ & _ & Hret & _).
  exact (Hret eq_refl).
Defined.

(** A load-balancing box is given an unknown name, a variant of the wrong
    type and an empty buffer, and is written twice. *)
Lemma unflagged_box_is_untouched_witness :
  after_steps (H := decimal_text) (Enumerated LoadBalancingBox)
    [mkStep (OpSet _ (ByString "bogus")) [];
     mkStep (OpWrite _) [];
     mkStep (OpSet _ (ByField (Field_UInt64 1))) [];
     mkStep (OpSet _ ByReadBuffer) [];
     mkStep (OpWrite _) []]
    (SettingLoadBalancing.ctor NEAREST_HOSTNAME)
  = SettingLoadBalancing.ctor NEAREST_HOSTNAME.
Proof.
  apply (unflagged_box_is_untouched (H := decimal_text)). reflexivity.
Defined.

(** The largest counts that are held without loss, and the first
    milliseconds count that is not. *)
Lemma duration_counts_within_bounds_witness :
  SettingSeconds.totalSeconds (SettingSeconds.ctor 9223372036854) = 9223372036854
  /\ SettingMilliseconds.totalMilliseconds (SettingMilliseconds.ctor 9223372036854775)
     = 9223372036854775
  /\ value (SettingMilliseconds.ctor 9223372036854776) < 0.
Proof.
  destruct (@duration_counts_within_bounds decimal_text) as (HS & HM & HO).
  split; [|split].
  - apply (HS 9223372036854 (mkFrame SettingSeconds.default [] [])). lia.
  - apply (HM 9223372036854775 (mkFrame SettingMilliseconds.default [] [])). lia.
  - apply (HO 9223372036854776). lia.
Defined.

(** The varint of 300 and the text "random", each followed by a byte. *)
Lemma stream_set_decodes_then_sets_witness :
  set_of (H := decimal_text) UnsignedIntegerBox ByReadBuffer
    (mkFrame SettingUInt64.default (varUInt 300 ++ [xff]) [])
  = set_of (H := decimal_text) UnsignedIntegerBox
      (@ByNative UnsignedIntegerBox 300) (mkFrame SettingUInt64.default [xff] [])
  /\ set_of (H := decimal_text) (Enumerated LoadBalancingBox) ByReadBuffer
       (mkFrame (SettingLoadBalancing.ctor NEAREST_HOSTNAME)
          (stringBinary "random" ++ [xff]) [])
     = set_of (H := decimal_text) (Enumerated LoadBalancingBox) (ByString "random")
         (mkFrame (SettingLoadBalancing.ctor NEAREST_HOSTNAME) [xff] []).
Proof.
  destruct (@stream_set_decodes_then_sets decimal_text) as (HU & _ & _ & _ & HE).
  split.
  - apply HU. unfold is_UInt64. vm_compute. split; [discriminate | reflexivity].
  - apply HE. vm_compute. reflexivity.
Defined.

(** A seconds box is handed a variant holding a string. *)
Lemma variant_set_unwraps_witness :
  exists ex,
    set_of (H := decimal_text) SecondsBox (ByField (Field_String "5"))
      (mkFrame (SettingSeconds.ctor 1) [] [])
    = (Thrown ex, mkFrame (SettingSeconds.ctor 1) [] []).
Proof.
  destruct (@variant_set_unwraps decimal_text) as (_ & _ & _ & _ & Hbad).
  apply (Hbad SecondsBox (Field_String "5")). reflexivity.
Defined.

(** Minus 1.500999 seconds come back as minus one second. *)
Lemma duration_round_trip_truncates_once_witness :
  write_then_set (H := decimal_text) SecondsBox (mkSetting (-1500999) true)
    SettingSeconds.default
  = (Returned tt, mkFrame (mkSetting (-1000000) true) [] []).
Proof.
  destruct (@duration_round_trip_truncates_once decimal_text) as (HS & _).
  destruct (HS (-1500999) true SettingSeconds.default) as (E & _).
  - unfold is_Int64. vm_compute. split; [discriminate | reflexivity].
  - exact E.
Defined.

(** Two and a half seconds, written by a seconds box, are two milliseconds to
    a milliseconds box. *)
Lemma seconds_wire_read_by_other_boxes_witness :
  write_then_read (H := decimal_text) SecondsBox MillisecondsBox
    (mkSetting 2500000 true) SettingMilliseconds.default
  = (Returned tt, mkFrame (mkSetting 2000 true) [] []).
Proof.
  destruct (seconds_wire_read_by_other_boxes (H := decimal_text) 2500000 true
              SettingMilliseconds.default SettingUInt64.default) as (E & _).
  - unfold is_Int64. vm_compute. split; [discriminate | reflexivity].
  - exact E.
Defined.
